(** * anansi: the instrumented response writer, the JSON response helper
      and the body truncation of the logging middleware

    A shallow embedding of [responses/write.go] (packages [responses] and
    [webio]) and of [requests/middleware.go] ([Log], [logBody]).

    Conventions of the embedding.
    - Go's [int], [int64] and [time.Duration] are [Z]; the platform is taken
      to be a 64-bit one, so [int(x)] of an [int64] is the identity.
    - A [[]byte] is a [list byte]; its capacity is taken to be its length.
    - An [error] is an [option string]: [None] is [nil].
    - A panic is the [Panic] outcome of the [Result] type.
    - The clock is an input: every operation that reads [time.Now] or
      [time.Since] takes the monotonic reading [now] of that moment.
    - The wrapped [http.ResponseWriter] is a recording handle: it keeps the
      calls it received and answers them through its own behaviour
      functions, which see the calls received so far. *)

From Stdlib Require Import ZArith Ascii String List Bool Lia.
From stdpp Require Import base option list functions gmap strings pretty.
Import ListNotations.

Local Open Scope string_scope.
Local Open Scope list_scope.
Local Open Scope Z_scope.

(** ** Values shared by the packages *)

Definition bytes := list Byte.byte.
Definition error := option string.

Inductive Result (A : Type) : Type :=
| Ok (a : A)
| Panic (msg : string).
Arguments Ok {A} a.
Arguments Panic {A} msg.

Definition bind {A B : Type} (r : Result A) (k : A -> Result B) : Result B :=
  match r with
  | Ok a => k a
  | Panic msg => Panic msg
  end.

Notation "'let+' x ':=' r 'in' k" := (bind r (fun x => k))
  (at level 10, x pattern, r at level 100, k at level 200).

Definition blen (b : bytes) : Z := Z.of_nat (List.length b).

(** [b[:n]]: the slice expression panics outside [0 <= n <= cap(b)]. *)
Definition slice_to (b : bytes) (n : Z) : Result bytes :=
  if (0 <=? n) && (n <=? blen b)
  then Ok (firstn (Z.to_nat n) b)
  else Panic "runtime error: slice bounds out of range".

(** ** net/http: the header collection *)

Module http.

Definition StatusOK : Z := 200.

Definition is_lower (c : ascii) : bool :=
  let n := nat_of_ascii c in (97 <=? n)%nat && (n <=? 122)%nat.
Definition is_upper (c : ascii) : bool :=
  let n := nat_of_ascii c in (65 <=? n)%nat && (n <=? 90)%nat.
Definition is_digit (c : ascii) : bool :=
  let n := nat_of_ascii c in (48 <=? n)%nat && (n <=? 57)%nat.

(** The bytes of an HTTP token (RFC 7230), as [validHeaderFieldByte]. *)
Definition validHeaderFieldByte (c : ascii) : bool :=
  is_lower c || is_upper c || is_digit c
  || existsb (Ascii.eqb c)
       ["!"; "#"; "$"; "%"; "&"; "'"; "*"; "+"; "-"; "."; "^"; "_"; "`"; "|"; "~"]%char.

Fixpoint all_valid (s : string) : bool :=
  match s with
  | EmptyString => true
  | String c r => validHeaderFieldByte c && all_valid r
  end.

Fixpoint canon_from (upper : bool) (s : string) : string :=
  match s with
  | EmptyString => EmptyString
  | String c r =>
      let c' :=
        if upper && is_lower c then ascii_of_nat (nat_of_ascii c - 32)
        else if negb upper && is_upper c then ascii_of_nat (nat_of_ascii c + 32)
        else c in
      String c' (canon_from (Ascii.eqb c' "-"%char) r)
  end.

(** [http.CanonicalHeaderKey]: the first letter and every letter after a
    hyphen in upper case, the others in lower case; a key holding a byte
    that is not a token byte is returned as it is. *)
Definition CanonicalHeaderKey (s : string) : string :=
  if all_valid s then canon_from true s else s.

(** [http.Header] is [map[string][]string]. *)
Abbreviation Header := (gmap string (list string)).

Definition Values (h : Header) (key : string) : list string :=
  default [] (h !! CanonicalHeaderKey key).

Definition Get (h : Header) (key : string) : string :=
  match Values h key with
  | [] => ""
  | v :: _ => v
  end.

Definition Add (key value : string) (h : Header) : Header :=
  let k := CanonicalHeaderKey key in
  <[k := default [] (h !! k) ++ [value]]> h.

Definition Set_ (key value : string) (h : Header) : Header :=
  <[CanonicalHeaderKey key := [value]]> h.

Record PushOptions := { Method : string; PushHeader : Header }.

End http.

(** ** time: monotonic readings and durations, in nanoseconds *)

Module time.

Definition Time := Z.
Definition Duration := Z.

Definition maxDuration : Duration := 2 ^ 63 - 1.
Definition minDuration : Duration := - 2 ^ 63.

Definition wrap64 (x : Z) : Z := (x + 2 ^ 63) mod 2 ^ 64 - 2 ^ 63.

(** [time.Since(start)] at the reading [now]: the difference of the two
    monotonic readings, saturated as [subMono] does. *)
Definition Since (start now : Time) : Duration :=
  let d := wrap64 (now - start) in
  if (d <? 0) && (start <? now) then maxDuration
  else if (0 <? d) && (now <? start) then minDuration
  else d.

(** [Duration.Milliseconds]: integer division, which truncates toward zero. *)
Definition Milliseconds (d : Duration) : Z := Z.quot d 1000000.

End time.

(** [strconv.Itoa]. *)
Definition Itoa (i : Z) : string := pretty i.

(** ** package webio: the instrumented writer *)

Module webio.
Import http time.

Definition defaultResponseTime : string := "X-Response-Time".

(** *** The wrapped handle *)

Definition Conn := nat.

Inductive Event : Type :=
| EvWriteHeader (status : Z) (sent : Header)
| EvWrite (buf : bytes)
| EvFlush
| EvHijack
| EvReadFrom (src : bytes)
| EvPush (target : string) (opts : option PushOptions).

(** The four booleans say which optional interfaces the dynamic type of the
    handle implements; [header] is the live map [Header()] returns. *)
Record Handle := {
  isFlusher : bool;
  isHijacker : bool;
  isReaderFrom : bool;
  isPusher : bool;
  header : Header;
  calls : list Event;
  onWrite : list Event -> bytes -> Z * error;
  onHijack : list Event -> Conn * Conn * error;
  onReadFrom : list Event -> bytes -> Z * error;
  onPush : list Event -> string -> option PushOptions -> error
}.

Definition with_header (hd : Header) (h : Handle) : Handle :=
  {| isFlusher := isFlusher h; isHijacker := isHijacker h;
     isReaderFrom := isReaderFrom h; isPusher := isPusher h;
     header := hd; calls := calls h;
     onWrite := onWrite h; onHijack := onHijack h;
     onReadFrom := onReadFrom h; onPush := onPush h |}.

Definition received (e : Event) (h : Handle) : Handle :=
  {| isFlusher := isFlusher h; isHijacker := isHijacker h;
     isReaderFrom := isReaderFrom h; isPusher := isPusher h;
     header := header h; calls := calls h ++ [e];
     onWrite := onWrite h; onHijack := onHijack h;
     onReadFrom := onReadFrom h; onPush := onPush h |}.

(** The handle's [WriteHeader] sends the header set as it is at that moment. *)
Definition Handle_WriteHeader (status : Z) (h : Handle) : Handle :=
  received (EvWriteHeader status (header h)) h.

Definition Handle_Write (buf : bytes) (h : Handle) : Z * error * Handle :=
  (onWrite h (calls h) buf, received (EvWrite buf) h).

Definition Handle_Flush (h : Handle) : Handle := received EvFlush h.

Definition Handle_Hijack (h : Handle) : Conn * Conn * error * Handle :=
  (onHijack h (calls h), received EvHijack h).

Definition Handle_ReadFrom (r : bytes) (h : Handle) : Z * error * Handle :=
  (onReadFrom h (calls h) r, received (EvReadFrom r) h).

Definition Handle_Push (target : string) (opts : option PushOptions) (h : Handle)
  : error * Handle :=
  (onPush h (calls h) target opts, received (EvPush target opts) h).

(** *** Tee sinks: [io.Writer] values, held by reference *)

(** A sink keeps the slices its [Write] received, in order; what it has
    accumulated is their concatenation. *)
Record Sink := {
  written : list bytes;
  onSinkWrite : list bytes -> bytes -> Z * error
}.

Definition Sink_Write (p : bytes) (s : Sink) : Z * error * Sink :=
  (onSinkWrite s (written s) p,
   {| written := written s ++ [p]; onSinkWrite := onSinkWrite s |}).

Definition output (s : Sink) : bytes := concat (written s).

Abbreviation SinkId := nat.
Abbreviation Sinks := (SinkId -> Sink).

(** *** The core *)

Record custom := {
  w : Handle;
  start : Time;
  code : Z;
  duration : Duration;
  wroteHeader : bool;
  headerName : string;
  teeWriter : option SinkId
}.

Definition with_w (h : Handle) (t : custom) : custom :=
  {| w := h; start := start t; code := code t; duration := duration t;
     wroteHeader := wroteHeader t; headerName := headerName t;
     teeWriter := teeWriter t |}.

Definition with_wroteHeader (b : bool) (t : custom) : custom :=
  {| w := w t; start := start t; code := code t; duration := duration t;
     wroteHeader := b; headerName := headerName t;
     teeWriter := teeWriter t |}.

Definition custom_Header (t : custom) : Header := header (w t).

Definition custom_WriteHeader (now : Time) (status : Z) (t : custom) : custom :=
  if negb (wroteHeader t) then
    let d := Since (start t) now in
    let dur := Milliseconds d in
    let h1 := with_header (Add (headerName t) (Itoa dur +:+ "ms") (custom_Header t)) (w t) in
    {| w := Handle_WriteHeader status h1; start := start t; code := status;
       duration := d; wroteHeader := true; headerName := headerName t;
       teeWriter := teeWriter t |}
  else t.

Definition custom_Write (now : Time) (buf : bytes) (t : custom) (sk : Sinks)
  : Result (Z * error * custom * Sinks) :=
  let t1 := if negb (wroteHeader t) then custom_WriteHeader now StatusOK t else t in
  let '(n, err, h) := Handle_Write buf (w t1) in
  let t2 := with_w h t1 in
  match err with
  | Some _ => Ok (n, err, t2, sk)
  | None =>
      match teeWriter t2 with
      | None => Ok (n, err, t2, sk)
      | Some s =>
          let+ p := slice_to buf n in
          let '(_, err', s') := Sink_Write p (sk s) in
          Ok (n, err', t2, <[s := s']> sk)
      end
  end.

Definition custom_Duration (t : custom) : Duration := duration t.

Definition custom_Code (t : custom) : Z := code t.

Definition custom_TeeWriter (tee : option SinkId) (t : custom) : custom :=
  {| w := w t; start := start t; code := code t; duration := duration t;
     wroteHeader := wroteHeader t; headerName := headerName t;
     teeWriter := tee |}.

(** *** The variants: each embeds the core *)

Record flushWriter := { flushWriter_custom : custom }.
Record httpWriter := { httpWriter_custom : custom }.
Record http2Writer := { http2Writer_custom : custom }.

Definition noFlusher : string := "interface conversion: missing method Flush".
Definition noHijacker : string := "interface conversion: missing method Hijack".
Definition noReaderFrom : string := "interface conversion: missing method ReadFrom".
Definition noPusher : string := "interface conversion: missing method Push".

Definition flushWriter_Flush (f : flushWriter) : Result flushWriter :=
  let t := with_wroteHeader true (flushWriter_custom f) in
  if isFlusher (w t)
  then Ok {| flushWriter_custom := with_w (Handle_Flush (w t)) t |}
  else Panic noFlusher.

Definition httpWriter_Flush (h1 : httpWriter) : Result httpWriter :=
  let t := with_wroteHeader true (httpWriter_custom h1) in
  if isFlusher (w t)
  then Ok {| httpWriter_custom := with_w (Handle_Flush (w t)) t |}
  else Panic noFlusher.

Definition httpWriter_Hijack (h1 : httpWriter)
  : Result (Conn * Conn * error * httpWriter) :=
  let t := httpWriter_custom h1 in
  if isHijacker (w t)
  then let '(r, h) := Handle_Hijack (w t) in
       Ok (r, {| httpWriter_custom := with_w h t |})
  else Panic noHijacker.

Definition httpWriter_ReadFrom (now : Time) (r : bytes) (h1 : httpWriter)
  : Result (Z * error * httpWriter) :=
  let t := httpWriter_custom h1 in
  if isReaderFrom (w t)
  then
    let t1 := if negb (wroteHeader t) then custom_WriteHeader now StatusOK t else t in
    let '(res, h) := Handle_ReadFrom r (w t1) in
    Ok (res, {| httpWriter_custom := with_w h t1 |})
  else Panic noReaderFrom.

Definition http2Writer_Push (target : string) (opts : option PushOptions)
  (h2 : http2Writer) : Result (error * http2Writer) :=
  let t := http2Writer_custom h2 in
  if isPusher (w t)
  then let '(err, h) := Handle_Push target opts (w t) in
       Ok (err, {| http2Writer_custom := with_w h t |})
  else Panic noPusher.

Definition http2Writer_Flush (h2 : http2Writer) : Result http2Writer :=
  let t := with_wroteHeader true (http2Writer_custom h2) in
  if isFlusher (w t)
  then Ok {| http2Writer_custom := with_w (Handle_Flush (w t)) t |}
  else Panic noFlusher.

(** The value [newWriter] returns: a pointer to one of the four types. *)
Inductive Writer : Type :=
| PtrCustom (t : custom)
| PtrFlushWriter (f : flushWriter)
| PtrHttpWriter (h1 : httpWriter)
| PtrHttp2Writer (h2 : http2Writer).

Definition newWriter (now : Time) (h : Handle) (protoMajor : Z) (name : string)
  : Writer :=
  let fl := isFlusher h in
  let name := if String.eqb name "" then defaultResponseTime else name in
  let tw := {| w := h; start := now; code := 0; duration := 0;
               wroteHeader := false; headerName := name; teeWriter := None |} in
  if protoMajor =? 2 then
    let ps := isPusher h in
    if fl && ps then PtrHttp2Writer {| http2Writer_custom := tw |}
    else if fl then PtrFlushWriter {| flushWriter_custom := tw |}
    else PtrCustom tw
  else
    let hj := isHijacker h in
    let rf := isReaderFrom h in
    if fl && hj && rf then PtrHttpWriter {| httpWriter_custom := tw |}
    else if fl then PtrFlushWriter {| flushWriter_custom := tw |}
    else PtrCustom tw.

(** The core a variant embeds, and the same variant around another core. *)
Definition core (x : Writer) : custom :=
  match x with
  | PtrCustom t => t
  | PtrFlushWriter f => flushWriter_custom f
  | PtrHttpWriter h1 => httpWriter_custom h1
  | PtrHttp2Writer h2 => http2Writer_custom h2
  end.

Definition with_core (t : custom) (x : Writer) : Writer :=
  match x with
  | PtrCustom _ => PtrCustom t
  | PtrFlushWriter _ => PtrFlushWriter {| flushWriter_custom := t |}
  | PtrHttpWriter _ => PtrHttpWriter {| httpWriter_custom := t |}
  | PtrHttp2Writer _ => PtrHttp2Writer {| http2Writer_custom := t |}
  end.

(** *** Method sets and calls *)

Inductive Capability : Type := Flusher | Hijacker | ReaderFrom | Pusher.

(** The optional interfaces each pointer type satisfies, from the methods
    declared on it. *)
Definition implements (x : Writer) (c : Capability) : bool :=
  match x, c with
  | PtrFlushWriter _, Flusher => true
  | PtrHttpWriter _, (Flusher | Hijacker | ReaderFrom) => true
  | PtrHttp2Writer _, (Flusher | Pusher) => true
  | _, _ => false
  end.

Inductive Call : Type :=
| WriteHeader (now : Time) (status : Z)
| Write (now : Time) (buf : bytes)
| TeeWriter (tee : option SinkId)
| Flush
| Hijack
| ReadFrom (now : Time) (r : bytes)
| Push (target : string) (opts : option PushOptions).

Inductive Ret : Type :=
| RetNone
| RetWrite (n : Z) (err : error)
| RetHijack (conn rw : Conn) (err : error)
| RetReadFrom (n : Z) (err : error)
| RetPush (err : error).

(** A method call on the value [newWriter] returned; [None] when the
    pointer type has no such method. The methods of the core are promoted
    to every variant. *)
Definition invoke (c : Call) (x : Writer) (sk : Sinks)
  : option (Result (Ret * Writer * Sinks)) :=
  match c, x with
  | WriteHeader now status, _ =>
      Some (Ok (RetNone, with_core (custom_WriteHeader now status (core x)) x, sk))
  | Write now buf, _ =>
      Some (let+ (n, err, t, sk') := custom_Write now buf (core x) sk in
            Ok (RetWrite n err, with_core t x, sk'))
  | TeeWriter tee, _ =>
      Some (Ok (RetNone, with_core (custom_TeeWriter tee (core x)) x, sk))
  | Flush, PtrFlushWriter f =>
      Some (let+ f' := flushWriter_Flush f in Ok (RetNone, PtrFlushWriter f', sk))
  | Flush, PtrHttpWriter h1 =>
      Some (let+ h1' := httpWriter_Flush h1 in Ok (RetNone, PtrHttpWriter h1', sk))
  | Flush, PtrHttp2Writer h2 =>
      Some (let+ h2' := http2Writer_Flush h2 in Ok (RetNone, PtrHttp2Writer h2', sk))
  | Hijack, PtrHttpWriter h1 =>
      Some (let+ (conn, rw, err, h1') := httpWriter_Hijack h1 in
            Ok (RetHijack conn rw err, PtrHttpWriter h1', sk))
  | ReadFrom now r, PtrHttpWriter h1 =>
      Some (let+ (n, err, h1') := httpWriter_ReadFrom now r h1 in
            Ok (RetReadFrom n err, PtrHttpWriter h1', sk))
  | Push target opts, PtrHttp2Writer h2 =>
      Some (let+ (err, h2') := http2Writer_Push target opts h2 in
            Ok (RetPush err, PtrHttp2Writer h2', sk))
  | _, _ => None
  end.

(** A sequence of calls, each on the state the previous one left; [None]
    when a call is not in the method set or panics. *)
Fixpoint run (cs : list Call) (x : Writer) (sk : Sinks)
  : option (list Ret * Writer * Sinks) :=
  match cs with
  | [] => Some ([], x, sk)
  | c :: cs' =>
      match invoke c x sk with
      | Some (Ok (r, x1, sk1)) =>
          match run cs' x1 sk1 with
          | Some (rs, x2, sk2) => Some (r :: rs, x2, sk2)
          | None => None
          end
      | _ => None
      end
  end.

Definition isWriteHeader (e : Event) : bool :=
  match e with EvWriteHeader _ _ => true | _ => false end.

(** How many times the handle's [WriteHeader] has been called. *)
Definition headerWrites (h : Handle) : nat :=
  List.length (List.filter isWriteHeader (calls h)).
Arguments headerWrites : simpl never.

(** The calls that reach [custom.WriteHeader] on a writer whose header is
    pending, with the status they pass. *)
Definition writesHeader (c : Call) (now : Time) (status : Z) : Prop :=
  match c with
  | WriteHeader n s => n = now /\ s = status
  | Write n _ => n = now /\ status = StatusOK
  | ReadFrom n _ => n = now /\ status = StatusOK
  | _ => False
  end.

(** The fields no call changes once the header is written, and the number
    of header writes the handle saw. *)
Definition frame (t t' : custom) : Prop :=
  code t' = code t /\ duration t' = duration t
  /\ header (w t') = header (w t) /\ start t' = start t
  /\ headerName t' = headerName t
  /\ headerWrites (w t') = headerWrites (w t).

(** The core a [Write] starts from after the implicit header write. *)
Definition primed (now : Time) (t : custom) : custom :=
  if negb (wroteHeader t) then custom_WriteHeader now StatusOK t else t.

(** What a call that returns does to the embedded core. *)
Definition effect (c : Call) (t : custom) : custom :=
  match c with
  | WriteHeader now status => custom_WriteHeader now status t
  | Write now buf => with_w (received (EvWrite buf) (w (primed now t))) (primed now t)
  | TeeWriter tee => custom_TeeWriter tee t
  | Flush => with_w (Handle_Flush (w t)) (with_wroteHeader true t)
  | Hijack => with_w (received EvHijack (w t)) t
  | ReadFrom now r => with_w (received (EvReadFrom r) (w (primed now t))) (primed now t)
  | Push target opts => with_w (received (EvPush target opts) (w t)) t
  end.

(** The body bytes passed to the handle's [Write], in order. *)
Definition bodyOf (e : Event) : bytes :=
  match e with EvWrite buf => buf | _ => [] end.
Definition body (h : Handle) : bytes := concat (map bodyOf (calls h)).
Arguments body : simpl never.

(** The call [Write(buf)] at the reading [now], and its result when the
    whole slice is accepted. *)
Definition writeCall (nb : Time * bytes) : Call := Write (fst nb) (snd nb).
Definition wroteAll (nb : Time * bytes) : Ret := RetWrite (blen (snd nb)) None.
Definition writeEvent (nb : Time * bytes) : Event := EvWrite (snd nb).

(** The writer and the sinks a sequence of calls leaves. *)
Definition after (cs : list Call) (x : Writer) (sk : Sinks) : Writer * Sinks :=
  match run cs x sk with
  | Some (_, x', sk') => (x', sk')
  | None => (x, sk)
  end.

(** *** A recording handle and a buffer sink, for concrete runs *)

Definition recorder (fl hj rf ps : bool) : Handle :=
  {| isFlusher := fl; isHijacker := hj; isReaderFrom := rf; isPusher := ps;
     header := ∅; calls := [];
     onWrite := fun _ buf => (blen buf, None);
     onHijack := fun _ => (0%nat, 0%nat, None);
     onReadFrom := fun _ r => (blen r, None);
     onPush := fun _ _ _ => None |}.

Definition buffer : Sink :=
  {| written := []; onSinkWrite := fun _ p => (blen p, None) |}.

Definition noSinks : Sinks := fun _ => buffer.

(** A handle whose [Write] sends [n] bytes and fails, and a sink whose
    [Write] fails. *)
Definition failing (n : Z) (msg : string) : Handle :=
  {| isFlusher := false; isHijacker := false; isReaderFrom := false;
     isPusher := false; header := ∅; calls := [];
     onWrite := fun _ _ => (n, Some msg);
     onHijack := fun _ => (0%nat, 0%nat, None);
     onReadFrom := fun _ r => (blen r, None);
     onPush := fun _ _ _ => None |}.

Definition refusing (msg : string) : Sink :=
  {| written := []; onSinkWrite := fun _ _ => (0, Some msg) |}.

Definition B (s : string) : bytes := list_byte_of_string s.

(** Whether the dynamic type of the handle implements an optional
    interface. *)
Definition supports (h : Handle) (c : Capability) : bool :=
  match c with
  | Flusher => isFlusher h
  | Hijacker => isHijacker h
  | ReaderFrom => isReaderFrom h
  | Pusher => isPusher h
  end.

(** The call a method forwards to the handle under the same name. *)
Definition forwarded (c : Call) : list Event :=
  match c with
  | WriteHeader _ _ => []
  | Write _ buf => [EvWrite buf]
  | TeeWriter _ => []
  | Flush => [EvFlush]
  | Hijack => [EvHijack]
  | ReadFrom _ r => [EvReadFrom r]
  | Push target opts => [EvPush target opts]
  end.

Definition notWriteHeader (e : Event) : bool := negb (isWriteHeader e).

(** The calls the handle received, its header writes left out. *)
Definition others (h : Handle) : list Event :=
  List.filter notWriteHeader (calls h).
Arguments others : simpl never.

Definition isWrite (c : Call) : bool :=
  match c with Write _ _ => true | _ => false end.

(** Every optional interface the writer exposes is one its handle
    implements. *)
Definition backed (x : Writer) : Prop :=
  forall c, implements x c = true -> supports (w (core x)) c = true.

End webio.

(** ** package responses *)

Module responses.
Import http webio.

(** [Write(w, code, data)] on a recording handle: the handle as the call
    leaves it, and whether the call returned or panicked. *)
Definition Write (h : Handle) (code : Z) (data : bytes) : Handle * Result unit :=
  let h1 := with_header (Set_ "Content-Type" "application/json; charset=utf-8" (header h)) h in
  let h2 := with_header (Set_ "X-Content-Type-Options" "nosniff" (header h1)) h1 in
  let h3 := Handle_WriteHeader code h2 in
  let '(_, err, h4) := Handle_Write data h3 in
  match err with
  | Some e => (h4, Panic e)
  | None => (h4, Ok tt)
  end.

(** The three methods of [http.ResponseWriter]. [Header_of] is the live map
    [Header()] returns and [Header_put] a write through it; [Write_on]
    gives the outcome of the call and the writer as the call leaves it, a
    panic included. *)
Class ResponseWriter (W : Type) := {
  Header_of : W -> Header;
  Header_put : Header -> W -> W;
  WriteHeader_on : Z -> W -> W;
  Write_on : bytes -> W -> Result (Z * error) * W
}.

(** [Write(w, code, data)] for any implementation of the interface. *)
Definition Write_to {W : Type} `{ResponseWriter W} (x : W) (code : Z)
    (data : bytes) : W * Result unit :=
  let x1 := Header_put (Set_ "Content-Type" "application/json; charset=utf-8" (Header_of x)) x in
  let x2 := Header_put (Set_ "X-Content-Type-Options" "nosniff" (Header_of x1)) x1 in
  let x3 := WriteHeader_on code x2 in
  let '(res, x4) := Write_on data x3 in
  match res with
  | Panic msg => (x4, Panic msg)
  | Ok (_, Some e) => (x4, Panic e)
  | Ok (_, None) => (x4, Ok tt)
  end.

#[export] Instance Handle_ResponseWriter : ResponseWriter Handle := {|
  Header_of := header;
  Header_put := with_header;
  WriteHeader_on := Handle_WriteHeader;
  Write_on := fun buf h => let '(n, err, h') := Handle_Write buf h in (Ok (n, err), h')
|}.

(** The instrumented writer with what its methods reach: the sinks, and the
    reading of the clock during the call. When the slice expression of
    [custom.Write] panics, the handle has received the slice already. *)
Record Instrumented := {
  clock : time.Time;
  writer : custom;
  sinks : Sinks
}.

#[export] Instance custom_ResponseWriter : ResponseWriter Instrumented := {|
  Header_of := fun i => custom_Header (writer i);
  Header_put := fun hd i =>
    {| clock := clock i;
       writer := with_w (with_header hd (w (writer i))) (writer i);
       sinks := sinks i |};
  WriteHeader_on := fun status i =>
    {| clock := clock i;
       writer := custom_WriteHeader (clock i) status (writer i);
       sinks := sinks i |};
  Write_on := fun buf i =>
    match custom_Write (clock i) buf (writer i) (sinks i) with
    | Ok (n, err, t', sk') =>
        (Ok (n, err), {| clock := clock i; writer := t'; sinks := sk' |})
    | Panic msg =>
        (Panic msg,
         {| clock := clock i;
            writer := with_w (received (EvWrite buf) (w (primed (clock i) (writer i))))
                        (primed (clock i) (writer i));
            sinks := sinks i |})
    end
|}.

End responses.

(** ** package requests: the body the [Log] middleware records *)

Module requests.
Import webio.

(** [bytes.Buffer.Truncate]. *)
Definition Buffer_Truncate (n : Z) (buffer : bytes) : Result bytes :=
  if (n <? 0) || (blen buffer <? n)
  then Panic "bytes.Buffer: truncation out of range"
  else Ok (firstn (Z.to_nat n) buffer).

Section Log.

(** [json.Compact] into a fresh buffer: the compacted document, or the
    error of a malformed one. It belongs to encoding/json and is taken as
    given. *)
Variable Compact : bytes -> bytes + string.

Definition logBody (maxSize : Z) (body : bytes) : Result bytes :=
  match Compact body with
  | inr err => Panic err
  | inl buffer =>
      if (0 <? maxSize) && (maxSize <? blen buffer)
      then let+ buffer' := Buffer_Truncate (maxSize - 3) buffer in
           Ok (buffer' ++ B "...")
      else Ok buffer
  end.

(** The limit [Log] hands to [logBody] from its closure. *)
Definition Log_maxBodySize (maxBodySize : Z) : Z :=
  if maxBodySize =? 0 then 8 * 1024 else maxBodySize.

(** What [Log(maxBodySize)] records for a body. *)
Definition Log (maxBodySize : Z) (body : bytes) : Result bytes :=
  logBody (Log_maxBodySize maxBodySize) body.

End Log.

(** A document with no insignificant white space is compacted to itself. *)
Definition compacted (body : bytes) : bytes + string := inl body.

(** The [interface{}] values [toLower] stores: a string or a string slice. *)
Inductive Value : Type :=
| VString (s : string)
| VStrings (v : list string).

Section toLower.

(** [strings.ToLower]; it belongs to the strings package and is taken as
    given. *)
Variable ToLower : string -> string.

(** [toLower(headers)]; the argument is the entries of the map in the order
    the range loop visits them, which Go leaves open. *)
Definition toLower (headers : list (string * list string))
  : gmap string Value :=
  foldl (fun lowerCaseHeaders kv =>
           let lowerKey := ToLower (fst kv) in
           let v := snd kv in
           if (List.length v =? 0)%nat
           then <[lowerKey := VString ""]> lowerCaseHeaders
           else if (List.length v =? 1)%nat
           then <[lowerKey := VString (hd "" v)]> lowerCaseHeaders
           else <[lowerKey := VStrings v]> lowerCaseHeaders)
        ∅ headers.

End toLower.

(** What the loop stores for the values of one key. *)
Definition stored (v : list string) : Value :=
  match v with
  | [] => VString ""
  | [s] => VString s
  | _ => VStrings v
  end.

(** [strings.ToLower] on a string of ASCII bytes. *)
Fixpoint asciiLower (s : string) : string :=
  match s with
  | EmptyString => EmptyString
  | String c r =>
      String (if http.is_upper c then ascii_of_nat (nat_of_ascii c + 32) else c)
        (asciiLower r)
  end.

End requests.

(** ** The selection rule of the variants, in words *)

Module rule.
Import webio.







End rule.

(** * Properties *)

(** ** The header collection *)

Section header_facts.
Import http.

Lemma Values_Add (h : Header) (key value : string) :
  Values (Add key value h) key = Values h key ++ [value].
Proof. unfold Values, Add. by rewrite lookup_insert_eq. Qed.


Lemma Get_Set (h : Header) (key value : string) :
  Get (Set_ key value h) key = value.
Proof. unfold Get, Values, Set_. by rewrite lookup_insert_eq. Qed.

Lemma Get_Set_other (h : Header) (key value key' : string) :
  CanonicalHeaderKey key ≠ CanonicalHeaderKey key' ->
  Get (Set_ key value h) key' = Get h key'.
Proof. intros Hne. unfold Get, Values, Set_. by rewrite lookup_insert_ne. Qed.

End header_facts.

(** ** responses.Write *)

Section responses_facts.
Import http webio.

(** C9. [responses.Write(w, code, data)] sets Content-Type to
    "application/json; charset=utf-8" and X-Content-Type-Options to
    "nosniff", then calls [w.WriteHeader(code)], which sends that header set,
    then writes [data] to [w]; it panics with the error of that write when
    there is one and returns otherwise. *)
Theorem C9_responses_Write (h : Handle) (code : Z) (data : bytes) :
  let sent := Set_ "X-Content-Type-Options" "nosniff"
                (Set_ "Content-Type" "application/json; charset=utf-8" (header h)) in
  let h' := fst (responses.Write h code data) in
  let res := snd (responses.Write h code data) in
  Get sent "Content-Type" = "application/json; charset=utf-8"
  /\ Get sent "X-Content-Type-Options" = "nosniff"
  /\ header h' = sent
  /\ calls h' = calls h ++ [EvWriteHeader code sent; EvWrite data]
  /\ res = match snd (onWrite h (calls h ++ [EvWriteHeader code sent]) data) with
           | Some e => Panic e
           | None => Ok tt
           end.
Proof.
  cbv zeta. unfold responses.Write, Handle_Write, Handle_WriteHeader. cbn [w header calls received with_header onWrite].
  destruct (onWrite h _ data) as [n [e|]] eqn:Hw; cbn.
  all: repeat split.
  all: try (rewrite Get_Set_other; [apply Get_Set | by vm_compute]).
  all: try apply Get_Set.
  all: by rewrite <- app_assoc.
Qed.

End responses_facts.

(** ** The body truncation of the logging middleware *)

Section requests_facts.
Import webio requests.

Lemma blen_app (a b : bytes) : blen (a ++ b) = blen a + blen b.
Proof. unfold blen. rewrite length_app. lia. Qed.

Lemma blen_firstn (n : Z) (b : bytes) :
  0 <= n <= blen b -> blen (firstn (Z.to_nat n) b) = n.
Proof. unfold blen. intros H. rewrite length_firstn. lia. Qed.




End requests_facts.

(** ** newWriter *)

Section selection_facts.
Import webio rule.




End selection_facts.

(** ** The instrumented writer: single calls *)

Section core_facts.
Import http time webio.

Lemma core_with_core (t : custom) (x : Writer) : core (with_core t x) = t.
Proof. by destruct x. Qed.

Lemma headerWrites_received (e : Event) (h : Handle) :
  headerWrites (received e h)
  = (headerWrites h + if isWriteHeader e then 1 else 0)%nat.
Proof.
  unfold headerWrites, received; cbn.
  rewrite List.filter_app, length_app. cbn. destruct (isWriteHeader e); cbn; lia.
Qed.

Lemma body_received (e : Event) (h : Handle) :
  body (received e h) = body h ++ bodyOf e.
Proof.
  unfold body, received; cbn.
  rewrite map_app, concat_app. cbn. by rewrite app_nil_r.
Qed.

Lemma frame_refl (t : custom) : frame t t.
Proof. by unfold frame. Qed.

Lemma frame_trans (t1 t2 t3 : custom) : frame t1 t2 -> frame t2 t3 -> frame t1 t3.
Proof. unfold frame. intuition congruence. Qed.

Lemma WriteHeader_sent (now : Time) (status : Z) (t : custom) :
  wroteHeader t = true -> custom_WriteHeader now status t = t.
Proof. intros H. unfold custom_WriteHeader. by rewrite H. Qed.

(** What the first header write does to a pending core. *)
Lemma WriteHeader_pending (now : Time) (status : Z) (t : custom) :
  wroteHeader t = false ->
  let t' := custom_WriteHeader now status t in
  let value := Itoa (Milliseconds (Since (start t) now)) +:+ "ms" in
  wroteHeader t' = true
  /\ code t' = status
  /\ duration t' = Since (start t) now
  /\ custom_Header t' = Add (headerName t) value (custom_Header t)
  /\ calls (w t') = calls (w t) ++ [EvWriteHeader status (custom_Header t')]
  /\ headerWrites (w t') = S (headerWrites (w t))
  /\ start t' = start t /\ headerName t' = headerName t
  /\ teeWriter t' = teeWriter t.
Proof.
  intros H. cbv zeta. unfold custom_WriteHeader. rewrite H.
  cbn [negb w code duration wroteHeader start headerName teeWriter].
  unfold Handle_WriteHeader. rewrite headerWrites_received.
  cbn. repeat split. unfold headerWrites. cbn. lia.
Qed.

Lemma Write_inv (now : Time) (buf : bytes) (t : custom) (sk : Sinks)
    (n : Z) (err : error) (t' : custom) (sk' : Sinks) :
  custom_Write now buf t sk = Ok (n, err, t', sk') ->
  t' = with_w (received (EvWrite buf) (w (primed now t))) (primed now t).
Proof.
  unfold custom_Write, Handle_Write. fold (primed now t).
  destruct (onWrite _ _ buf) as [n0 [e|]]; cbn.
  - by intros [= _ _ <- _].
  - destruct (teeWriter (primed now t)) as [s|]; [| by intros [= _ _ <- _]].
    destruct (slice_to buf n0) as [p|]; cbn; [| done].
    unfold Sink_Write. destruct (onSinkWrite _ _ p). by intros [= _ _ <- _].
Qed.

Local Arguments custom_Write : simpl never.

Lemma invoke_effect (c : Call) (x : Writer) (sk : Sinks) (r : Ret)
    (x' : Writer) (sk' : Sinks) :
  invoke c x sk = Some (Ok (r, x', sk')) ->
  x' = with_core (effect c (core x)) x.
Proof.
  intros H. destruct c, x; cbn in H; try discriminate.
  all: try (by injection H as <- <- <-).
  all: try (destruct (custom_Write _ _ _ _) as [[[[n e] t'] s']|] eqn:HW;
            cbn in H; [| discriminate]; apply Write_inv in HW;
            injection H as <- <- <-; by rewrite HW).
  all: unfold flushWriter_Flush, httpWriter_Flush, http2Writer_Flush,
         httpWriter_Hijack, httpWriter_ReadFrom, http2Writer_Push,
         Handle_Hijack, Handle_ReadFrom, Handle_Push in H; cbn in H.
  all: repeat match type of H with
         | context [if ?b then _ else _] => destruct b eqn:?; cbn in H
         | context [onHijack ?h ?l] => destruct (onHijack h l) as [[? ?] ?]; cbn in H
         | context [onReadFrom ?h ?l ?b] => destruct (onReadFrom h l b) as [? ?]; cbn in H
         end; try discriminate.
  all: try (by injection H as <- <- <-).
  all: injection H as <- <- <-; cbn; unfold primed; by rewrite Heqb0.
Qed.

(** Once the header is written no call changes the recorded status, the
    duration, the header set or the number of header writes. *)
Lemma effect_sent (c : Call) (t : custom) :
  wroteHeader t = true ->
  wroteHeader (effect c t) = true /\ frame t (effect c t).
Proof.
  intros H. destruct c; cbn; unfold primed; rewrite ?WriteHeader_sent by done;
    rewrite ?H; cbn.
  all: unfold frame, Handle_Flush; cbn; rewrite ?headerWrites_received; cbn.
  all: repeat split; try done; lia.
Qed.

(** On a pending writer a call either leaves the record alone (and only
    [Flush] marks the header as written), or it is the first header write. *)
Lemma effect_pending (c : Call) (t : custom) :
  wroteHeader t = false ->
  (frame t (effect c t) /\ (wroteHeader (effect c t) = false \/ c = Flush))
  \/ (exists now status,
        writesHeader c now status
        /\ wroteHeader (effect c t) = true
        /\ frame (custom_WriteHeader now status t) (effect c t)).
Proof.
  intros H.
  destruct (WriteHeader_pending 0 0 t H) as (Hw & _). cbv zeta in Hw.
  destruct c; cbn; unfold primed; rewrite ?H; cbn [negb].
  - right. exists now, status. split; [done |].
    split; [| apply frame_refl].
    by destruct (WriteHeader_pending now status t H) as (? & _).
  - right. exists now, StatusOK. split; [done |].
    destruct (WriteHeader_pending now StatusOK t H) as (? & _).
    split; [done |]. unfold frame; cbn. rewrite headerWrites_received; cbn.
    repeat split; lia.
  - left. split; [by unfold frame | by left].
  - left. split; [| by right]. unfold frame, Handle_Flush; cbn.
    rewrite headerWrites_received; cbn. repeat split; lia.
  - left. split; [| by left]. unfold frame; cbn.
    rewrite headerWrites_received; cbn. repeat split; lia.
  - right. exists now, StatusOK. split; [done |].
    destruct (WriteHeader_pending now StatusOK t H) as (? & _).
    split; [done |]. unfold frame; cbn. rewrite headerWrites_received; cbn.
    repeat split; lia.
  - left. split; [| by left]. unfold frame; cbn.
    rewrite headerWrites_received; cbn. repeat split; lia.
Qed.

End core_facts.

(** ** The instrumented writer: sequences of calls *)

Section run_facts.
Import http time webio.

Lemma run_cons_inv (c : Call) (cs : list Call) (x : Writer) (sk : Sinks)
    (rs : list Ret) (x' : Writer) (sk' : Sinks) :
  run (c :: cs) x sk = Some (rs, x', sk') ->
  exists r x1 sk1 rs',
    invoke c x sk = Some (Ok (r, x1, sk1))
    /\ run cs x1 sk1 = Some (rs', x', sk')
    /\ rs = r :: rs'.
Proof.
  cbn. destruct (invoke c x sk) as [[[[r x1] sk1]|]|]; try done.
  destruct (run cs x1 sk1) as [[[rs' x2] sk2]|] eqn:Hr; try done.
  intros [= <- <- <-]. by exists r, x1, sk1, rs'.
Qed.

Lemma run_sent (cs : list Call) (x : Writer) (sk : Sinks)
    (rs : list Ret) (x' : Writer) (sk' : Sinks) :
  wroteHeader (core x) = true ->
  run cs x sk = Some (rs, x', sk') ->
  wroteHeader (core x') = true /\ frame (core x) (core x').
Proof.
  revert x sk rs. induction cs as [| c cs IH]; intros x sk rs Hs Hrun.
  - injection Hrun as <- <- <-. split; [done | apply frame_refl].
  - apply run_cons_inv in Hrun as (r & x1 & sk1 & rs' & Hi & Hr & ->).
    apply invoke_effect in Hi. subst x1.
    destruct (effect_sent c (core x) Hs) as (Hs1 & Hf1).
    destruct (IH _ _ _ ltac:(by rewrite core_with_core) Hr) as (Hs2 & Hf2).
    rewrite core_with_core in Hf2.
    split; [done | by eapply frame_trans].
Qed.

(** From a pending writer: either no header write has reached the handle
    and the record is as it was, or exactly one has. *)
Lemma run_pending (cs : list Call) (x : Writer) (sk : Sinks)
    (rs : list Ret) (x' : Writer) (sk' : Sinks) :
  wroteHeader (core x) = false ->
  run cs x sk = Some (rs, x', sk') ->
  frame (core x) (core x')
  \/ (wroteHeader (core x') = true
      /\ headerWrites (w (core x')) = S (headerWrites (w (core x)))).
Proof.
  revert x sk rs. induction cs as [| c cs IH]; intros x sk rs Hp Hrun.
  - injection Hrun as <- <- <-. left. apply frame_refl.
  - apply run_cons_inv in Hrun as (r & x1 & sk1 & rs' & Hi & Hr & ->).
    apply invoke_effect in Hi. subst x1.
    destruct (effect_pending c (core x) Hp)
      as [(Hf & [Hp1 | ->]) | (now & status & _ & Hs1 & Hf)].
    + destruct (IH _ _ _ ltac:(by rewrite core_with_core) Hr)
        as [Hf2 | (Hs2 & Hn2)]; rewrite core_with_core in *.
      * left. by eapply frame_trans.
      * right. split; [done |]. destruct Hf as (_ & _ & _ & _ & _ & Hn).
        by rewrite Hn2, Hn.
    + apply run_sent in Hr as (Hs2 & Hf2); rewrite core_with_core in *; [| done].
      left. by eapply frame_trans.
    + apply run_sent in Hr as (Hs2 & Hf2); rewrite core_with_core in *; [| done].
      right. split; [done |].
      destruct (WriteHeader_pending now status (core x) Hp)
        as (_ & _ & _ & _ & _ & Hn & _). cbv zeta in Hn.
      destruct Hf as (_ & _ & _ & _ & _ & Hn1).
      destruct Hf2 as (_ & _ & _ & _ & _ & Hn2).
      by rewrite Hn2, Hn1, Hn.
Qed.

End run_facts.

(** ** Durations *)

Section time_facts.
Import time.





End time_facts.

(** ** The lifetime of a writer *)

Section lifetime_facts.
Import http time webio.

Lemma newWriter_core (now : Time) (h : Handle) (protoMajor : Z) (name : string) :
  core (newWriter now h protoMajor name)
  = {| w := h; start := now; code := 0; duration := 0; wroteHeader := false;
       headerName := if String.eqb name "" then defaultResponseTime else name;
       teeWriter := None |}.
Proof.
  unfold newWriter.
  by destruct (protoMajor =? 2), (isFlusher h), (isPusher h), (isHijacker h),
    (isReaderFrom h).
Qed.

(** The call that reaches [custom.WriteHeader] on a pending writer leaves
    the record [custom.WriteHeader] wrote, and the handle has received that
    header write followed by nothing but the forwarded call. *)
Lemma first_header_write (first : Call) (x : Writer) (sk : Sinks) (r : Ret)
    (x1 : Writer) (sk1 : Sinks) (now : Time) (status : Z) :
  wroteHeader (core x) = false ->
  invoke first x sk = Some (Ok (r, x1, sk1)) ->
  writesHeader first now status ->
  let t := custom_WriteHeader now status (core x) in
  wroteHeader (core x1) = true
  /\ frame t (core x1)
  /\ exists tail,
       calls (w (core x1))
       = calls (w (core x)) ++ EvWriteHeader status (custom_Header t) :: tail
       /\ Forall (fun e => isWriteHeader e = false) tail.
Proof.
  intros Hp Hi Hw. cbv zeta.
  apply invoke_effect in Hi. subst x1. rewrite core_with_core.
  destruct (WriteHeader_pending now status (core x) Hp)
    as (Hs & _ & _ & _ & Hc & _). cbv zeta in Hs, Hc.
  destruct first; cbn in Hw; try done; destruct Hw as [-> ->];
    cbn [effect]; unfold primed; rewrite ?Hp; cbn [negb].
  - split; [done |]. split; [apply frame_refl |]. by exists [].
  - split; [done |]. split.
    + unfold frame; cbn. rewrite headerWrites_received; cbn. repeat split; lia.
    + exists [EvWrite buf]. cbn. rewrite Hc, <- app_assoc. split; [done |].
      by constructor.
  - split; [done |]. split.
    + unfold frame; cbn. rewrite headerWrites_received; cbn. repeat split; lia.
    + exists [EvReadFrom r0]. cbn. rewrite Hc, <- app_assoc. split; [done |].
      by constructor.
Qed.


End lifetime_facts.

(** ** The header write happens once *)

Section header_write_facts.
Import http time webio.







End header_write_facts.

(** ** Write *)

Section write_facts.
Import http time webio.

Local Arguments custom_Write : simpl never.

Lemma primed_teeWriter (now : Time) (t : custom) :
  teeWriter (primed now t) = teeWriter t.
Proof.
  unfold primed, custom_WriteHeader. by destruct (wroteHeader t).
Qed.

Lemma primed_sent (now : Time) (t : custom) :
  wroteHeader t = true -> primed now t = t.
Proof. intros H. unfold primed. by rewrite H. Qed.

Lemma primed_body (now : Time) (t : custom) : body (w (primed now t)) = body (w t).
Proof.
  unfold primed, custom_WriteHeader, Handle_WriteHeader.
  destruct (wroteHeader t); cbn [negb w]; [done |].
  rewrite body_received. cbn [bodyOf]. by rewrite app_nil_r.
Qed.

(** [Write] without a tee sink returns what the handle returned. *)
Lemma Write_no_tee (now : Time) (buf : bytes) (t : custom) (sk : Sinks) :
  teeWriter t = None ->
  let t1 := primed now t in
  let res := onWrite (w t1) (calls (w t1)) buf in
  custom_Write now buf t sk
  = Ok (fst res, snd res, with_w (received (EvWrite buf) (w t1)) t1, sk).
Proof.
  intros Htee. cbv zeta. unfold custom_Write, Handle_Write. fold (primed now t).
  destruct (onWrite _ _ buf) as [n [e|]]; cbn; [done |].
  by rewrite primed_teeWriter, Htee.
Qed.

Lemma firstn_blen (b : bytes) : firstn (Z.to_nat (blen b)) b = b.
Proof. unfold blen. rewrite Nat2Z.id. apply firstn_all. Qed.

(** Writes on a writer whose header is written and which has no tee sink:
    every one returns, and the handle receives the slices in order. *)
Lemma run_writes_sent (ws : list (Time * bytes)) (x : Writer) (sk : Sinks) :
  wroteHeader (core x) = true ->
  teeWriter (core x) = None ->
  exists rs x',
    run (map writeCall ws) x sk = Some (rs, x', sk)
    /\ calls (w (core x')) = calls (w (core x)) ++ map writeEvent ws
    /\ code (core x') = code (core x).
Proof.
  revert x. induction ws as [| [now buf] ws IH]; intros x Hs Htee.
  - exists [], x. cbn. by rewrite app_nil_r.
  - pose proof (Write_no_tee now buf (core x) sk Htee) as HW. cbv zeta in HW.
    rewrite (primed_sent _ _ Hs) in HW.
    set (x1 := with_core (with_w (received (EvWrite buf) (w (core x))) (core x)) x).
    destruct (IH x1) as (rs & x' & Hrun & Hcalls & Hc).
    { unfold x1. by rewrite core_with_core. }
    { unfold x1. by rewrite core_with_core. }
    eexists _, x'. split; [| split].
    + cbn [map run writeCall fst snd invoke]. rewrite HW. cbn [bind].
      fold x1. rewrite Hrun. reflexivity.
    + rewrite Hcalls. unfold x1. rewrite core_with_core. cbn.
      by rewrite <- app_assoc.
    + rewrite Hc. unfold x1. by rewrite core_with_core.
Qed.

(** C3. On the writer [newWriter] returns, a sequence of [Write] calls with
    no [WriteHeader] before it runs to its end; the first [Write] calls
    [WriteHeader(200)] before it forwards its bytes, so the handle receives
    the status 200, with the latency header in the header set, and then the
    slices in order, and [Code()] is 200 afterwards. *)
Theorem C3_first_Write_sends_200 (now0 : Time) (h : Handle) (protoMajor : Z)
    (name : string) (sk : Sinks) (nb : Time * bytes)
    (rest : list (Time * bytes)) :
  let x0 := newWriter now0 h protoMajor name in
  let key := if String.eqb name "" then "X-Response-Time" else name in
  let value := Itoa (Milliseconds (Since now0 (fst nb))) +:+ "ms" in
  exists rs x',
    run (map writeCall (nb :: rest)) x0 sk = Some (rs, x', sk)
    /\ calls (w (core x'))
       = calls h ++ EvWriteHeader 200 (Add key value (header h))
                 :: map writeEvent (nb :: rest)
    /\ custom_Code (core x') = 200.
Proof.
  cbv zeta. destruct nb as [now buf].
  set (x0 := newWriter now0 h protoMajor name).
  assert (Hcore := newWriter_core now0 h protoMajor name). fold x0 in Hcore.
  assert (Hp : wroteHeader (core x0) = false) by by rewrite Hcore.
  assert (Htee : teeWriter (core x0) = None) by by rewrite Hcore.
  pose proof (Write_no_tee now buf (core x0) sk Htee) as HW. cbv zeta in HW.
  destruct (WriteHeader_pending now StatusOK (core x0) Hp)
    as (Hs & Hc & _ & Hh & Hcalls & _ & _ & _ & Htee1). cbv zeta in *.
  assert (Hprimed : primed now (core x0) = custom_WriteHeader now StatusOK (core x0))
    by (unfold primed; by rewrite Hp).
  rewrite Hprimed in HW.
  set (t1 := custom_WriteHeader now StatusOK (core x0)) in *.
  set (x1 := with_core (with_w (received (EvWrite buf) (w t1)) t1) x0).
  destruct (run_writes_sent rest x1 sk) as (rs & x' & Hrun & Hcalls' & Hc').
  { unfold x1. by rewrite core_with_core. }
  { unfold x1. rewrite core_with_core. cbn. congruence. }
  eexists _, x'. split; [| split].
  - cbn [map run writeCall fst snd invoke]. rewrite HW. cbn [bind].
    fold x1. rewrite Hrun. reflexivity.
  - rewrite Hcalls'. unfold x1. rewrite core_with_core. cbn.
    rewrite Hcalls, Hh. unfold custom_Header. rewrite Hcore. cbn.
    by rewrite <- !app_assoc.
  - unfold custom_Code. rewrite Hc'. unfold x1. rewrite core_with_core. cbn.
    exact Hc.
Qed.

(** C6. When the handle's write returns an error, [Write] returns that
    error and the handle's count at once and no sink is touched. When it
    succeeds with the count n and a tee sink is installed, the sink is
    written the first n bytes of the slice, and [Write] returns n with the
    error of the sink, the handle having received the slice already. *)
Theorem C6_Write_errors (now : Time) (buf : bytes) (t : custom) (sk : Sinks) :
  let t1 := primed now t in
  let n := fst (onWrite (w t1) (calls (w t1)) buf) in
  let err := snd (onWrite (w t1) (calls (w t1)) buf) in
  let t' := with_w (received (EvWrite buf) (w t1)) t1 in
  calls (w t') = calls (w t1) ++ [EvWrite buf]
  /\ (forall e, err = Some e ->
       custom_Write now buf t sk = Ok (n, Some e, t', sk))
  /\ (err = None -> teeWriter t = None ->
       custom_Write now buf t sk = Ok (n, None, t', sk))
  /\ (forall s, err = None -> teeWriter t = Some s -> 0 <= n <= blen buf ->
       let p := firstn (Z.to_nat n) buf in
       let teeErr := snd (onSinkWrite (sk s) (written (sk s)) p) in
       exists sk',
         custom_Write now buf t sk = Ok (n, teeErr, t', sk')
         /\ written (sk' s) = written (sk s) ++ [p]
         /\ (forall s', s' <> s -> sk' s' = sk s')).
Proof.
  cbv zeta. split; [done |].
  unfold custom_Write, Handle_Write. fold (primed now t).
  destruct (onWrite _ _ buf) as [n [e0|]]; cbn -[slice_to].
  - split; [| split]; try done. by intros e [= <-].
  - rewrite primed_teeWriter. split; [done |]. split.
    + by intros _ ->.
    + intros s _ -> Hn. unfold slice_to.
      replace ((0 <=? n) && (n <=? blen buf)) with true by lia. cbn.
      destruct (onSinkWrite (sk s) (written (sk s)) _) as [m e'] eqn:Hs.
      eexists. split; [reflexivity |]. split.
      * by rewrite fn_lookup_insert.
      * intros s' Hne. by rewrite fn_lookup_insert_ne.
Qed.

Lemma C6_Write_errors_witness :
  let broken := core (newWriter 0 (failing 2 "broken pipe") 1 "") in
  let teed := custom_TeeWriter (Some 1%nat)
                (core (newWriter 0 (recorder false false false false) 1 "")) in
  let full : Sinks := fun _ => refusing "full" in
  custom_Write 0 (B "hello") (custom_TeeWriter (Some 1%nat) broken) full
  = Ok (2, Some "broken pipe",
        with_w (received (EvWrite (B "hello"))
                  (w (primed 0 (custom_TeeWriter (Some 1%nat) broken))))
          (primed 0 (custom_TeeWriter (Some 1%nat) broken)),
        full)
  /\ exists sk',
       custom_Write 0 (B "hello") teed full
       = Ok (5, Some "full",
             with_w (received (EvWrite (B "hello")) (w (primed 0 teed)))
               (primed 0 teed), sk')
       /\ written (sk' 1%nat) = [B "hello"].
Proof.
  cbv zeta. split.
  - pose proof (C6_Write_errors 0 (B "hello")
      (custom_TeeWriter (Some 1%nat)
         (core (newWriter 0 (failing 2 "broken pipe") 1 ""))) (fun _ => refusing "full"))
      as (_ & He & _).
    exact (He "broken pipe" eq_refl).
  - pose proof (C6_Write_errors 0 (B "hello")
      (custom_TeeWriter (Some 1%nat)
         (core (newWriter 0 (recorder false false false false) 1 "")))
      (fun _ => refusing "full"))
      as (_ & _ & _ & Ht).
    destruct (Ht 1%nat eq_refl eq_refl ltac:(vm_compute; split; discriminate))
      as (sk' & HW & Hwr & _).
    exists sk'. split; [exact HW | exact Hwr].
Defined.

End write_facts.

(** ** The tee sink *)

Section tee_facts.
Import http time webio.

Local Arguments custom_Write : simpl never.

Lemma invoke_Write_inv (now : Time) (buf : bytes) (x : Writer) (sk : Sinks)
    (r : Ret) (x' : Writer) (sk' : Sinks) :
  invoke (Write now buf) x sk = Some (Ok (r, x', sk')) ->
  exists n err t',
    custom_Write now buf (core x) sk = Ok (n, err, t', sk')
    /\ r = RetWrite n err /\ x' = with_core t' x.
Proof.
  cbn. destruct (custom_Write now buf (core x) sk) as [[[[n err] t'] sk1]|];
    cbn; [| done].
  intros [= <- <- <-]. by exists n, err, t'.
Qed.

(** What one [Write] does to the sinks and to the body the handle has. *)
Lemma Write_sinks (now : Time) (buf : bytes) (t : custom) (sk : Sinks)
    (n : Z) (err : error) (t' : custom) (sk' : Sinks) :
  custom_Write now buf t sk = Ok (n, err, t', sk') ->
  teeWriter t' = teeWriter t
  /\ body (w t') = body (w t) ++ buf
  /\ (forall s, teeWriter t <> Some s -> sk' s = sk s)
  /\ (forall s, teeWriter t = Some s -> err = None -> n = blen buf ->
        written (sk' s) = written (sk s) ++ [buf]
        /\ forall s0, s0 <> s -> sk' s0 = sk s0).
Proof.
  intros HW. pose proof (Write_inv _ _ _ _ _ _ _ _ HW) as ->.
  split; [cbn; apply primed_teeWriter |].
  split; [cbn [w with_w]; by rewrite body_received, primed_body |].
  revert HW. unfold custom_Write, Handle_Write. fold (primed now t).
  destruct (onWrite _ _ buf) as [n0 [e|]]; cbn -[slice_to].
  - intros [= <- <- <-]. split; [done |]. by intros s _ [=].
  - rewrite primed_teeWriter. destruct (teeWriter t) as [s1|].
    + destruct (slice_to buf n0) as [p|] eqn:Hp; cbn; [| done].
      destruct (onSinkWrite (sk s1) (written (sk s1)) p) as [m e'].
      intros [= <- <- <-]. split.
      * intros s Hne. rewrite fn_lookup_insert_ne; [done | congruence].
      * intros s [= ->] _ ->. unfold slice_to in Hp.
        destruct ((0 <=? blen buf) && (blen buf <=? blen buf)); [| done].
        injection Hp as <-. rewrite firstn_blen. split.
        -- by rewrite fn_lookup_insert.
        -- intros s0 Hne. by rewrite fn_lookup_insert_ne.
    + intros [= <- <- <-]. split; [done |]. by intros s [=].
Qed.

(** Writes never reach a sink that is not the installed one. *)
Lemma run_writes_other (ws : list (Time * bytes)) (x : Writer) (sk : Sinks)
    (s : SinkId) (rs : list Ret) (x' : Writer) (sk' : Sinks) :
  teeWriter (core x) <> Some s ->
  run (map writeCall ws) x sk = Some (rs, x', sk') ->
  sk' s = sk s.
Proof.
  revert x sk rs. induction ws as [| [now buf] ws IH]; intros x sk rs Hne Hrun.
  - by injection Hrun as <- <- <-.
  - apply run_cons_inv in Hrun as (r & x1 & sk1 & rs' & Hi & Hr & ->).
    apply invoke_Write_inv in Hi as (n & err & t' & HW & -> & ->).
    apply Write_sinks in HW as (Htee & _ & Hother & _).
    assert (Hne1 : teeWriter (core (with_core t' x)) <> Some s)
      by (rewrite core_with_core; congruence).
    rewrite (IH _ _ _ Hne1 Hr). by apply Hother.
Qed.

(** Writes that all succeed in full hand their slices, in order, to the
    installed sink and to the handle, and to no other sink. *)
Lemma run_writes_teed (ws : list (Time * bytes)) (x : Writer) (sk : Sinks)
    (s : SinkId) (x' : Writer) (sk' : Sinks) :
  teeWriter (core x) = Some s ->
  run (map writeCall ws) x sk = Some (map wroteAll ws, x', sk') ->
  written (sk' s) = written (sk s) ++ map snd ws
  /\ (forall s0, s0 <> s -> sk' s0 = sk s0)
  /\ body (w (core x')) = body (w (core x)) ++ concat (map snd ws).
Proof.
  revert x sk. induction ws as [| [now buf] ws IH]; intros x sk Htee Hrun.
  - injection Hrun as <- <-. cbn. by rewrite !app_nil_r.
  - apply run_cons_inv in Hrun as (r & x1 & sk1 & rs' & Hi & Hr & Hrs).
    cbn [map] in Hrs. injection Hrs as <- <-.
    apply invoke_Write_inv in Hi as (n & err & t' & HW & Hret & ->).
    unfold wroteAll in Hret. cbn [snd] in Hret. injection Hret as <- <-.
    apply Write_sinks in HW as (Htee1 & Hbody & _ & Hs).
    destruct (Hs s Htee eq_refl eq_refl) as (Hwr & Hoth).
    assert (Htee2 : teeWriter (core (with_core t' x)) = Some s)
      by (rewrite core_with_core; congruence).
    destruct (IH _ _ Htee2 Hr) as (Hwr2 & Hoth2 & Hbody2).
    rewrite core_with_core in Hbody2.
    split; [| split].
    + rewrite Hwr2, Hwr. cbn. by rewrite <- app_assoc.
    + intros s0 Hne. rewrite Hoth2 by done. by apply Hoth.
    + rewrite Hbody2, Hbody. cbn. by rewrite <- app_assoc.
Qed.

(** C7. With a sink installed and every later write succeeding in full, the
    sink accumulates exactly the slices passed to [Write] after the
    installation, in order, and so does the handle; the bytes written
    before the installation are not in it, and from the installation on no
    other sink, the replaced one included, receives anything. *)
Theorem C7_tee_receives_later_writes (x : Writer) (sk : Sinks) (s : SinkId)
    (ws0 ws : list (Time * bytes)) (rs0 rs : list Ret) (x1 x2 : Writer)
    (sk1 sk2 : Sinks) :
  teeWriter (core x) <> Some s ->
  run (map writeCall ws0) x sk = Some (rs0, x1, sk1) ->
  run (TeeWriter (Some s) :: map writeCall ws) x1 sk1 = Some (rs, x2, sk2) ->
  rs = RetNone :: map wroteAll ws ->
  output (sk1 s) = output (sk s)
  /\ output (sk2 s) = output (sk s) ++ concat (map snd ws)
  /\ (forall s0, s0 <> s -> sk2 s0 = sk1 s0)
  /\ body (w (core x2)) = body (w (core x1)) ++ concat (map snd ws).
Proof.
  intros Hne Hpre Hrun ->.
  pose proof (run_writes_other _ _ _ _ _ _ _ Hne Hpre) as Hs1.
  apply run_cons_inv in Hrun as (r & xt & skt & rs' & Hi & Hr & Hrs).
  injection Hrs as <- <-.
  cbn in Hi. injection Hi as <- <-.
  assert (Htee : teeWriter (core (with_core (custom_TeeWriter (Some s) (core x1)) x1))
                 = Some s) by by rewrite core_with_core.
  destruct (run_writes_teed _ _ _ s _ _ Htee Hr) as (Hwr & Hoth & Hbody).
  rewrite core_with_core in Hbody.
  split; [by rewrite Hs1 |]. split; [| split; done].
  unfold output. by rewrite Hwr, concat_app, Hs1.
Qed.

Lemma C7_tee_receives_later_writes_witness :
  let x := newWriter 1000 (recorder false false false false) 1 "" in
  let ws := [(2000, B "ab"); (3000, B "cd")] in
  let end_ := after (TeeWriter (Some 1%nat) :: map writeCall ws) x noSinks in
  teeWriter (core x) <> Some 1%nat
  /\ output (snd end_ 1%nat) = B "abcd"
  /\ body (w (core (fst end_))) = B "abcd".
Proof.
  cbv zeta. split; [discriminate |].
  pose proof (C7_tee_receives_later_writes
    (newWriter 1000 (recorder false false false false) 1 "") noSinks 1%nat
    [] [(2000, B "ab"); (3000, B "cd")] [] _ _ _ _ _
    ltac:(discriminate) eq_refl eq_refl eq_refl)
    as (_ & Hout & _ & Hbody).
  split; [exact Hout | exact Hbody].
Defined.

End tee_facts.

(** ** Flush, ReadFrom, Hijack and Push *)

Section capability_facts.
Import http time webio.

(** [ReadFrom] on a pending writer writes the header with status 200
    before it forwards. *)
Lemma ReadFrom_writes_header (now : Time) (src : bytes) (x : Writer)
    (sk : Sinks) (r : Ret) (x' : Writer) (sk' : Sinks) :
  wroteHeader (core x) = false ->
  invoke (ReadFrom now src) x sk = Some (Ok (r, x', sk')) ->
  custom_Code (core x') = 200
  /\ wroteHeader (core x') = true
  /\ headerWrites (w (core x')) = S (headerWrites (w (core x))).
Proof.
  intros Hp Hi.
  destruct (first_header_write _ _ _ _ _ _ now StatusOK Hp Hi (conj eq_refl eq_refl))
    as (Hs & (Hc & _ & _ & _ & _ & Hn) & _).
  destruct (WriteHeader_pending now StatusOK (core x) Hp)
    as (_ & Hc0 & _ & _ & _ & Hn0 & _). cbv zeta in Hc0, Hn0.
  unfold custom_Code. rewrite Hc, Hn. split; [exact Hc0 | by split].
Qed.

(** [Hijack] and [Push] forward to the handle and leave the header pending. *)
Lemma Hijack_Push_leave_pending (c : Call) (x : Writer) (sk : Sinks) (r : Ret)
    (x' : Writer) (sk' : Sinks) :
  c = Hijack \/ (exists target opts, c = Push target opts) ->
  wroteHeader (core x) = false ->
  invoke c x sk = Some (Ok (r, x', sk')) ->
  wroteHeader (core x') = false
  /\ frame (core x) (core x')
  /\ exists e, calls (w (core x')) = calls (w (core x)) ++ [e]
               /\ isWriteHeader e = false.
Proof.
  intros Hc Hp Hi. apply invoke_effect in Hi. subst x'.
  rewrite core_with_core.
  destruct Hc as [-> | (target & opts & ->)]; cbn.
  - split; [done |]. split; [| by eexists].
    unfold frame; cbn. rewrite headerWrites_received; cbn. repeat split; lia.
  - split; [done |]. split; [| by eexists].
    unfold frame; cbn. rewrite headerWrites_received; cbn. repeat split; lia.
Qed.

(** [Flush] on a pending writer of any variant only sets the flag: the
    handle receives the flush and no header write, the status stays 0 and
    the header set is not touched. *)
Lemma Flush_only_sets_the_flag (x : Writer) (sk : Sinks) (r : Ret)
    (x' : Writer) (sk' : Sinks) :
  invoke Flush x sk = Some (Ok (r, x', sk')) ->
  wroteHeader (core x') = true
  /\ frame (core x) (core x')
  /\ calls (w (core x')) = calls (w (core x)) ++ [EvFlush].
Proof.
  intros Hi. apply invoke_effect in Hi. subst x'. rewrite core_with_core. cbn.
  split; [done |]. split; [| done].
  unfold frame, Handle_Flush; cbn. rewrite headerWrites_received; cbn.
  repeat split; lia.
Qed.

(** C1, at the flush-only writer of a recording handle: [Flush] before any
    header write returns, the handle has received the flush alone, [Code()]
    is 0 and not 200, no latency header is in the header set, and the
    [WriteHeader(404)] that follows is dropped as well. *)
Theorem C1_Flush_first_skips_WriteHeader :
  let x0 := newWriter 1000 (recorder true false false false) 1 "" in
  let x1 := fst (after [Flush] x0 noSinks) in
  let x2 := fst (after [WriteHeader 9000000 404] x1 noSinks) in
  wroteHeader (core x0) = false
  /\ run [Flush] x0 noSinks = Some ([RetNone], x1, noSinks)
  /\ calls (w (core x1)) = [EvFlush]
  /\ custom_Code (core x1) = 0
  /\ custom_Code (core x1) <> 200
  /\ Values (custom_Header (core x1)) "X-Response-Time" = []
  /\ custom_Duration (core x1) = 0
  /\ calls (w (core x2)) = [EvFlush]
  /\ custom_Code (core x2) = 0.
Proof. cbv zeta. repeat split. discriminate. Qed.

End capability_facts.

(** * Further properties *)

(** ** logBody: when it returns, and how long its result is *)

Section logBody_facts.
Import webio requests.

(** [logBody] returns exactly when [json.Compact] accepts the body and the
    truncation, if it applies, has room for the ellipsis: a malformed body
    panics under every limit, a negative one included, and so does a
    compacted body longer than a limit of 1 or 2. *)
Theorem logBody_returns_iff (Compact : bytes -> bytes + string)
    (maxSize : Z) (body : bytes) :
  (exists r, logBody Compact maxSize body = Ok r)
  <-> (exists c, Compact body = inl c
                 /\ (maxSize <= 0 \/ 3 <= maxSize \/ blen c <= maxSize)).
Proof.
  unfold logBody, Buffer_Truncate. destruct (Compact body) as [c | err].
  - destruct (Z.ltb_spec 0 maxSize) as [Hpos | Hneg];
      destruct (Z.ltb_spec maxSize (blen c)) as [Hlong | Hshort]; cbn.
    + destruct (Z.ltb_spec (maxSize - 3) 0) as [Hsmall | Hroom]; cbn.
      * split; [by intros [r Hr] |]. intros (c' & [= <-] & H). lia.
      * replace (blen c <? maxSize - 3) with false by lia. cbn.
        split; [| by eexists]. intros _. exists c. split; [done | lia].
    + split; [| by eexists]. intros _. exists c. split; [done | lia].
    + split; [| by eexists]. intros _. exists c. split; [done | lia].
    + split; [| by eexists]. intros _. exists c. split; [done | lia].
  - split; [by intros [r Hr] | by intros (c & Hc & _)].
Qed.

(** Under a positive limit whatever [logBody] returns is at most limit
    bytes long; through [Log], where 0 stands for 8192, the same holds for
    every limit that is not negative. *)
Theorem Log_result_within_limit (Compact : bytes -> bytes + string)
    (maxBodySize : Z) (body r : bytes) :
  0 <= maxBodySize ->
  Log Compact maxBodySize body = Ok r ->
  blen r <= (if maxBodySize =? 0 then 8192 else maxBodySize).
Proof.
  intros Hnn. unfold Log, Log_maxBodySize.
  change (8 * 1024) with 8192.
  set (limit := if maxBodySize =? 0 then 8192 else maxBodySize).
  assert (Hpos : 0 < limit).
  { unfold limit. destruct (Z.eqb_spec maxBodySize 0); lia. }
  unfold logBody, Buffer_Truncate. destruct (Compact body) as [c | err]; [| done].
  replace (0 <? limit) with true by lia. cbn.
  destruct (Z.ltb_spec limit (blen c)) as [Hlong | Hshort].
  - destruct ((limit - 3 <? 0) || (blen c <? limit - 3)) eqn:Hb; cbn; [done |].
    intros [= <-]. rewrite blen_app, blen_firstn by lia.
    change (blen _) with 3. lia.
  - by intros [= <-].
Qed.

Lemma Log_result_within_limit_witness :
  0 <= 5 /\ blen (B "[1...") <= 5.
Proof.
  split; [lia |].
  exact (Log_result_within_limit compacted 5 (B "[1,2,3]") (B "[1...")
           ltac:(lia) eq_refl).
Defined.

End logBody_facts.

(** ** toLower *)

Section toLower_facts.
Import requests.

Variable ToLower : string -> string.

Lemma toLower_step (acc : gmap string Value) (kv : string * list string) :
  (let lowerKey := ToLower (fst kv) in
   let v := snd kv in
   if (List.length v =? 0)%nat
   then <[lowerKey := VString ""]> acc
   else if (List.length v =? 1)%nat
   then <[lowerKey := VString (hd "" v)]> acc
   else <[lowerKey := VStrings v]> acc)
  = <[ToLower (fst kv) := stored (snd kv)]> acc.
Proof. destruct kv as [k [| a [| b v]]]; reflexivity. Qed.

(** The entry the loop leaves under a lower-case key: that of an entry of
    the map with that lowered key, or what was there before the loop. *)
Lemma toLower_fold (l : list (string * list string)) (acc : gmap string Value)
    (k' : string) :
  let res := foldl (fun m kv => <[ToLower (fst kv) := stored (snd kv)]> m) acc l in
  (exists k v, (k, v) ∈ l /\ ToLower k = k' /\ res !! k' = Some (stored v))
  \/ ((forall k v, (k, v) ∈ l -> ToLower k <> k') /\ res !! k' = acc !! k').
Proof.
  cbv zeta. revert acc. induction l as [| [k v] l IH]; intros acc; cbn.
  - right. split; [| done]. intros k v H. by apply elem_of_nil in H.
  - destruct (IH (<[ToLower k := stored v]> acc))
      as [(k2 & v2 & Hin & Hk & Hres) | (Hnone & Hres)].
    + left. exists k2, v2. split; [by right | done].
    + destruct (decide (ToLower k = k')) as [Heq | Hne].
      * left. exists k, v. split; [by left |]. split; [done |].
        rewrite Hres, <- Heq. apply lookup_insert_eq.
      * right. split.
        -- intros k2 v2 [[= -> ->] | Hin]%elem_of_cons; [done | by eapply Hnone].
        -- by rewrite Hres, lookup_insert_ne.
Qed.

Lemma toLower_unfold (l : list (string * list string)) :
  toLower ToLower l
  = foldl (fun m kv => <[ToLower (fst kv) := stored (snd kv)]> m) ∅ l.
Proof.
  unfold toLower. generalize (∅ : gmap string Value).
  induction l as [| kv l IH]; intros acc; cbn [foldl]; [done |].
  rewrite <- IH. f_equal. apply toLower_step.
Qed.

(** In whatever order the loop visits the map: every key of the map has its
    lower-case form in the result, and every entry of the result is under
    the lower-case form of a key of the map and holds "" for no value, the
    value itself for one, and the slice for two or more. *)
Theorem toLower_entries (headers : gmap string (list string))
    (order : list (string * list string)) :
  order ≡ₚ map_to_list headers ->
  (forall k v, headers !! k = Some v ->
     is_Some (toLower ToLower order !! ToLower k))
  /\ (forall k' x, toLower ToLower order !! k' = Some x ->
        exists k v, headers !! k = Some v /\ ToLower k = k'
                    /\ x = match v with
                           | [] => VString ""
                           | [s] => VString s
                           | _ => VStrings v
                           end).
Proof.
  intros Hperm. rewrite toLower_unfold. split.
  - intros k v Hkv.
    assert (Hin : (k, v) ∈ order)
      by (rewrite Hperm; by apply elem_of_map_to_list).
    destruct (toLower_fold order ∅ (ToLower k))
      as [(k2 & v2 & _ & _ & Hres) | (Hnone & _)]; cbv zeta in *.
    + by rewrite Hres.
    + by destruct (Hnone k v Hin).
  - intros k' x Hx.
    destruct (toLower_fold order ∅ k')
      as [(k2 & v2 & Hin & Hk & Hres) | (_ & Hres)]; cbv zeta in *.
    + exists k2, v2. split; [| split; [done |]].
      * apply elem_of_map_to_list. by rewrite <- Hperm.
      * rewrite Hres in Hx. by injection Hx as <-.
    + rewrite Hres, lookup_empty in Hx. done.
Qed.

Lemma NoDup_fmap_agree {A B : Type} (f : A -> B) (l : list A) (x y : A) :
  NoDup (map f l) -> x ∈ l -> y ∈ l -> f x = f y -> x = y.
Proof.
  induction l as [| a l IH]; cbn; intros Hnd Hx Hy Hf.
  - by apply elem_of_nil in Hx.
  - apply NoDup_cons in Hnd as [Ha Hnd].
    apply elem_of_cons in Hx as [-> | Hx]; apply elem_of_cons in Hy as [-> | Hy].
    + done.
    + destruct Ha. rewrite Hf. apply list_elem_of_fmap_2. done.
    + destruct Ha. rewrite <- Hf. apply list_elem_of_fmap_2. done.
    + by apply IH.
Qed.

(** When no two keys of the map have the same lower-case form, the result
    does not depend on the order of the loop: under the lower-case form of
    each key it holds what the loop stores for that key's values. *)
Theorem toLower_distinct_keys (headers : gmap string (list string))
    (order : list (string * list string)) :
  order ≡ₚ map_to_list headers ->
  NoDup (map (fun kv => ToLower (fst kv)) order) ->
  forall k v, headers !! k = Some v ->
    toLower ToLower order !! ToLower k
    = Some (match v with
            | [] => VString ""
            | [s] => VString s
            | _ => VStrings v
            end).
Proof.
  intros Hperm Hnd k v Hkv. rewrite toLower_unfold.
  assert (Hin : (k, v) ∈ order)
    by (rewrite Hperm; by apply elem_of_map_to_list).
  destruct (toLower_fold order ∅ (ToLower k))
    as [(k2 & v2 & Hin2 & Hk & Hres) | (Hnone & _)]; cbv zeta in *.
  - pose proof (NoDup_fmap_agree (fun kv => ToLower (fst kv)) order
                  (k2, v2) (k, v) Hnd Hin2 Hin Hk) as [= -> ->].
    exact Hres.
  - by destruct (Hnone k v Hin).
Qed.

End toLower_facts.

Section toLower_witnesses.
Import requests.

Lemma toLower_entries_witness :
  let headers : gmap string (list string) :=
    <["Content-Type" := ["a"]]> (<["Accept" := ["x"; "y"]]> (<["X-Empty" := []]> ∅)) in
  headers !! "Accept" = Some ["x"; "y"]
  /\ is_Some (toLower asciiLower (map_to_list headers) !! "accept").
Proof.
  cbv zeta. split; [reflexivity |].
  eapply (proj1 (toLower_entries asciiLower _ _ (reflexivity _))
            "Accept" ["x"; "y"]).
  reflexivity.
Defined.

Lemma toLower_distinct_keys_witness :
  let headers : gmap string (list string) :=
    <["Content-Type" := ["a"]]> (<["Accept" := ["x"; "y"]]> (<["X-Empty" := []]> ∅)) in
  toLower asciiLower (map_to_list headers) !! "accept" = Some (VStrings ["x"; "y"])
  /\ toLower asciiLower (map_to_list headers) !! "content-type" = Some (VString "a")
  /\ toLower asciiLower (map_to_list headers) !! "x-empty" = Some (VString "").
Proof.
  cbv zeta.
  set (headers := <["Content-Type" := ["a"]]>
                    (<["Accept" := ["x"; "y"]]> (<["X-Empty" := []]> ∅))
                  : gmap string (list string)).
  assert (Hnd : NoDup (map (fun kv => asciiLower (fst kv)) (map_to_list headers)))
    by (apply (bool_decide_unpack _); vm_compute; exact I).
  pose proof (toLower_distinct_keys asciiLower headers (map_to_list headers)
                (reflexivity _) Hnd) as H.
  split; [exact (H "Accept" ["x"; "y"] eq_refl) |].
  split; [exact (H "Content-Type" ["a"] eq_refl) |
          exact (H "X-Empty" [] eq_refl)].
Defined.

End toLower_witnesses.

(** ** What the handle and the sinks see over a lifetime *)

Section forwarding_facts.
Import http time webio.

Local Arguments custom_Write : simpl never.

Lemma effect_supports (c : Call) (t : custom) (cap : Capability) :
  supports (w (effect c t)) cap = supports (w t) cap.
Proof.
  destruct c, cap; cbn; unfold primed, custom_WriteHeader;
    by destruct (wroteHeader t).
Qed.

Lemma implements_with_core (t : custom) (x : Writer) (cap : Capability) :
  implements (with_core t x) cap = implements x cap.
Proof. by destruct x, cap. Qed.

Lemma newWriter_backed (now : Time) (h : Handle) (protoMajor : Z) (name : string) :
  backed (newWriter now h protoMajor name).
Proof.
  unfold backed, newWriter.
  destruct (protoMajor =? 2), (isFlusher h) eqn:Hfl, (isPusher h) eqn:Hps,
    (isHijacker h) eqn:Hhj, (isReaderFrom h) eqn:Hrf; cbn.
  all: by intros [] H; cbn in *.
Qed.

Lemma run_backed (cs : list Call) (x : Writer) (sk : Sinks) (rs : list Ret)
    (x' : Writer) (sk' : Sinks) :
  backed x -> run cs x sk = Some (rs, x', sk') -> backed x'.
Proof.
  revert x sk rs. induction cs as [| c cs IH]; intros x sk rs Hb Hrun.
  - by injection Hrun as <- <- <-.
  - apply run_cons_inv in Hrun as (r & x1 & sk1 & rs' & Hi & Hr & ->).
    apply invoke_effect in Hi. subst x1. eapply IH; [| exact Hr].
    intros cap Hcap. rewrite core_with_core, effect_supports.
    apply Hb. by rewrite implements_with_core in Hcap.
Qed.

(** On a writer [newWriter] made, after any calls, the type assertions of
    the variant methods cannot fail: a call other than [Write] is either
    outside the method set or returns, and it leaves the sinks alone. *)
Theorem assertions_never_fail (now0 : Time) (h : Handle) (protoMajor : Z)
    (name : string) (sk : Sinks) (cs : list Call) (rs : list Ret)
    (x' : Writer) (sk' : Sinks) (c : Call) (sk2 : Sinks) :
  run cs (newWriter now0 h protoMajor name) sk = Some (rs, x', sk') ->
  isWrite c = false ->
  invoke c x' sk2 = None
  \/ exists r x'', invoke c x' sk2 = Some (Ok (r, x'', sk2)).
Proof.
  intros Hrun Hc.
  pose proof (run_backed _ _ _ _ _ _ (newWriter_backed _ _ _ _) Hrun) as Hb.
  destruct c, x' as [t | f | h1 | h2]; try discriminate Hc; cbn.
  all: try (by left).
  all: try (right; by eexists _, _).
  - pose proof (Hb Flusher eq_refl) as Hf. cbn in Hf.
    right. unfold flushWriter_Flush. cbn. rewrite Hf. cbn. by eexists _, _.
  - pose proof (Hb Flusher eq_refl) as Hf. cbn in Hf.
    right. unfold httpWriter_Flush. cbn. rewrite Hf. cbn. by eexists _, _.
  - pose proof (Hb Flusher eq_refl) as Hf. cbn in Hf.
    right. unfold http2Writer_Flush. cbn. rewrite Hf. cbn. by eexists _, _.
  - pose proof (Hb Hijacker eq_refl) as Hf. cbn in Hf.
    right. unfold httpWriter_Hijack, Handle_Hijack. rewrite Hf.
    destruct (onHijack _ _) as [[a b] e]. cbn. by eexists _, _.
  - pose proof (Hb ReaderFrom eq_refl) as Hf. cbn in Hf.
    right. unfold httpWriter_ReadFrom, Handle_ReadFrom. rewrite Hf.
    destruct (onReadFrom _ _ _) as [n e]. cbn. by eexists _, _.
  - pose proof (Hb Pusher eq_refl) as Hf. cbn in Hf.
    right. unfold http2Writer_Push, Handle_Push. rewrite Hf. cbn.
    by eexists _, _.
Qed.

Lemma assertions_never_fail_witness :
  let x := fst (after [Write 2000 (B "a")]
                  (newWriter 1000 (recorder true true true false) 1 "") noSinks) in
  isWrite Hijack = false
  /\ (invoke Hijack x noSinks = None
      \/ exists r x'', invoke Hijack x noSinks = Some (Ok (r, x'', noSinks))).
Proof.
  cbv zeta. split; [reflexivity |].
  exact (assertions_never_fail 1000 (recorder true true true false) 1 ""
           noSinks [Write 2000 (B "a")] _ _ _ Hijack noSinks eq_refl eq_refl).
Defined.

Lemma others_received (e : Event) (h : Handle) :
  others (received e h) = others h ++ (if isWriteHeader e then [] else [e]).
Proof.
  unfold others, received, notWriteHeader; cbn.
  rewrite List.filter_app. cbn. by destruct (isWriteHeader e).
Qed.

Lemma others_primed (now : Time) (t : custom) :
  others (w (primed now t)) = others (w t).
Proof.
  unfold primed, custom_WriteHeader, Handle_WriteHeader.
  destruct (wroteHeader t); cbn [negb w]; [done |].
  rewrite others_received. cbn. by rewrite app_nil_r.
Qed.

Lemma effect_others (c : Call) (t : custom) :
  others (w (effect c t)) = others (w t) ++ forwarded c.
Proof.
  destruct c; cbn [effect forwarded w with_w custom_TeeWriter].
  - rewrite app_nil_r. unfold custom_WriteHeader, Handle_WriteHeader.
    destruct (wroteHeader t); cbn [negb w]; [done |].
    rewrite others_received. cbn. by rewrite app_nil_r.
  - by rewrite others_received, others_primed.
  - by rewrite app_nil_r.
  - unfold Handle_Flush. by rewrite others_received.
  - by rewrite others_received.
  - by rewrite others_received, others_primed.
  - by rewrite others_received.
Qed.

(** The wrapper is transparent for everything but the header write: apart
    from its [WriteHeader] calls, the handle receives exactly the calls made
    on the writer that have a counterpart on the handle, once each and in
    the order they were made, failed writes included. *)
Theorem calls_are_forwarded_in_order (cs : list Call) (x : Writer) (sk : Sinks)
    (rs : list Ret) (x' : Writer) (sk' : Sinks) :
  run cs x sk = Some (rs, x', sk') ->
  others (w (core x')) = others (w (core x)) ++ concat (map forwarded cs).
Proof.
  revert x sk rs. induction cs as [| c cs IH]; intros x sk rs Hrun.
  - injection Hrun as <- <- <-. cbn. by rewrite app_nil_r.
  - apply run_cons_inv in Hrun as (r & x1 & sk1 & rs' & Hi & Hr & ->).
    apply invoke_effect in Hi. subst x1.
    rewrite (IH _ _ _ Hr), core_with_core, effect_others. cbn.
    by rewrite <- app_assoc.
Qed.

Lemma calls_are_forwarded_in_order_witness :
  let x := newWriter 1000 (recorder true true true false) 1 "" in
  let cs := [Write 2000 (B "a"); WriteHeader 3000 404; Flush; Hijack;
             Write 4000 (B "b")] in
  others (w (core (fst (after cs x noSinks))))
  = [EvWrite (B "a"); EvFlush; EvHijack; EvWrite (B "b")].
Proof.
  cbv zeta.
  exact (calls_are_forwarded_in_order
           [Write 2000 (B "a"); WriteHeader 3000 404; Flush; Hijack;
            Write 4000 (B "b")]
           (newWriter 1000 (recorder true true true false) 1 "") noSinks
           _ _ _ eq_refl).
Defined.





End forwarding_facts.

(** ** The optional methods, one by one *)

Section method_facts.
Import http time webio.

Local Arguments custom_Write : simpl never.

(** [Hijack] and [Push] are pure pass-throughs in every state: the handle
    receives the one call, the writer returns what the handle answered, and
    the status, the duration, the header set, the header-written flag and
    the sinks are as before. *)
Theorem Hijack_and_Push_pass_through (c : Call) (x : Writer) (sk : Sinks)
    (r : Ret) (x' : Writer) (sk' : Sinks) :
  c = Hijack \/ (exists target opts, c = Push target opts) ->
  invoke c x sk = Some (Ok (r, x', sk')) ->
  let h := w (core x) in
  r = match c with
      | Push target opts => RetPush (onPush h (calls h) target opts)
      | _ => let '(conn, rw, err) := onHijack h (calls h) in RetHijack conn rw err
      end
  /\ calls (w (core x')) = calls h ++ forwarded c
  /\ wroteHeader (core x') = wroteHeader (core x)
  /\ frame (core x) (core x')
  /\ teeWriter (core x') = teeWriter (core x)
  /\ sk' = sk.
Proof.
  intros Hc Hi. cbv zeta.
  pose proof (invoke_effect _ _ _ _ _ _ Hi) as Hx.
  assert (Hframe : forall e, isWriteHeader e = false ->
            frame (core x) (with_w (received e (w (core x))) (core x))).
  { intros e He. unfold frame; cbn. rewrite headerWrites_received, He.
    repeat split; lia. }
  destruct Hc as [-> | (target & opts & ->)].
  - destruct x as [t | f | h1 | h2]; cbn in Hi; try discriminate Hi.
    unfold httpWriter_Hijack, Handle_Hijack in Hi.
    destruct (isHijacker _); [| discriminate Hi].
    cbn [core]. destruct (onHijack _ _) as [[conn rw] err]. cbn in Hi.
    injection Hi as <- <- <-. cbn. repeat split; by apply Hframe.
  - destruct x as [t | f | h1 | h2]; cbn in Hi; try discriminate Hi.
    unfold http2Writer_Push, Handle_Push in Hi.
    destruct (isPusher _); [| discriminate Hi]. cbn in Hi.
    injection Hi as <- <- <-. cbn. repeat split; by apply Hframe.
Qed.

Lemma Hijack_and_Push_pass_through_witness :
  let x := newWriter 1000 (recorder true false false true) 2 "" in
  let x' := fst (after [Push "/style.css" None] x noSinks) in
  calls (w (core x')) = [EvPush "/style.css" None]
  /\ wroteHeader (core x') = false.
Proof.
  cbv zeta.
  pose proof (Hijack_and_Push_pass_through (Push "/style.css" None)
    (newWriter 1000 (recorder true false false true) 2 "") noSinks
    (RetPush None) _ noSinks
    (or_intror (ex_intro _ "/style.css" (ex_intro _ None eq_refl))) eq_refl)
    as (_ & Hcalls & Hp & _).
  split; [exact Hcalls | exact Hp].
Defined.

(** [ReadFrom] on a writer whose header is pending: the handle receives
    [WriteHeader(200)], with the latency header in the header set, and then
    the [ReadFrom]; the writer returns what the handle answered after that
    header write, and [Code()] is 200. On a writer whose header is written
    the handle receives the [ReadFrom] alone. *)
Theorem ReadFrom_writes_the_header_first (now : Time) (src : bytes)
    (x : Writer) (sk : Sinks) (r : Ret) (x' : Writer) (sk' : Sinks) :
  invoke (ReadFrom now src) x sk = Some (Ok (r, x', sk')) ->
  let t1 := custom_WriteHeader now StatusOK (core x) in
  sk' = sk
  /\ wroteHeader (core x') = true
  /\ r = (let '(n, err) := onReadFrom (w t1) (calls (w t1)) src in
          RetReadFrom n err)
  /\ (wroteHeader (core x) = false ->
        calls (w (core x'))
        = calls (w (core x))
          ++ [EvWriteHeader 200 (custom_Header (core x')); EvReadFrom src]
        /\ custom_Code (core x') = 200
        /\ custom_Duration (core x') = Since (start (core x)) now
        /\ Values (custom_Header (core x')) (headerName (core x))
           = Values (custom_Header (core x)) (headerName (core x))
             ++ [Itoa (Milliseconds (Since (start (core x)) now)) +:+ "ms"])
  /\ (wroteHeader (core x) = true ->
        calls (w (core x')) = calls (w (core x)) ++ [EvReadFrom src]
        /\ frame (core x) (core x')).
Proof.
  intros Hi. cbv zeta.
  destruct x as [t | f | h1 | h2]; cbn in Hi; try discriminate Hi.
  unfold httpWriter_ReadFrom, Handle_ReadFrom in Hi.
  destruct (isReaderFrom _); [| discriminate Hi]. cbn [core].
  set (t := httpWriter_custom h1) in *.
  destruct (wroteHeader t) eqn:Hp; cbn [negb] in Hi.
  - rewrite (WriteHeader_sent now StatusOK t Hp).
    destruct (onReadFrom _ _ _) as [n err]. cbn in Hi.
    injection Hi as <- <- <-. cbn.
    split; [done |]. split; [done |]. split; [done |]. split; [done |].
    intros _. split; [done |].
    unfold frame; cbn. rewrite headerWrites_received; cbn. repeat split; lia.
  - destruct (WriteHeader_pending now StatusOK t Hp)
      as (Hs & Hc & Hd & Hh & Hcalls & _). cbv zeta in *.
    destruct (onReadFrom _ _ _) as [n err]. cbn in Hi.
    injection Hi as <- <- <-. cbn.
    split; [done |]. split; [done |]. split; [done |]. split; [| done].
    intros _. split; [| split; [exact Hc | split; [exact Hd |]]].
    + rewrite Hcalls. by rewrite <- app_assoc.
    + unfold custom_Header in *. rewrite Hh. apply Values_Add.
Qed.

Lemma ReadFrom_writes_the_header_first_witness :
  let x := newWriter 1000 (recorder true true true false) 1 "" in
  let x' := fst (after [ReadFrom 3001000 (B "file")] x noSinks) in
  wroteHeader (core x) = false
  /\ custom_Code (core x') = 200
  /\ Values (custom_Header (core x')) "X-Response-Time" = ["3ms"].
Proof.
  cbv zeta. split; [reflexivity |].
  pose proof (ReadFrom_writes_the_header_first 3001000 (B "file")
    (newWriter 1000 (recorder true true true false) 1 "") noSinks
    (RetReadFrom 4 None) _ noSinks eq_refl)
    as (_ & _ & _ & Hpending & _).
  destruct (Hpending eq_refl) as (_ & Hc & _ & Hv).
  split; [exact Hc | exact Hv].
Defined.

(** Writes on a writer with no tee sink, in any state: every one returns,
    whatever the handle answers, and no sink is touched. *)
Lemma run_writes_no_tee (ws : list (Time * bytes)) (x : Writer) (sk : Sinks) :
  teeWriter (core x) = None ->
  exists rs x',
    run (map writeCall ws) x sk = Some (rs, x', sk)
    /\ List.length rs = List.length ws
    /\ teeWriter (core x') = None.
Proof.
  revert x. induction ws as [| [now buf] ws IH]; intros x Htee.
  - by exists [], x.
  - pose proof (Write_no_tee now buf (core x) sk Htee) as HW. cbv zeta in HW.
    set (t1 := with_w (received (EvWrite buf) (w (primed now (core x))))
                 (primed now (core x))) in *.
    destruct (IH (with_core t1 x)) as (rs & x' & Hrun & Hlen & Htee').
    { rewrite core_with_core. unfold t1. cbn. by rewrite primed_teeWriter. }
    eexists _, x'. split; [| split; [| done]].
    + cbn [map run writeCall fst snd invoke]. rewrite HW. cbn [bind].
      rewrite Hrun. reflexivity.
    + cbn. by rewrite Hlen.
Qed.

(** [TeeWriter(nil)] takes the sink away: from any state, the writes that
    follow all return, whatever counts and errors the handle answers, and
    leave every sink as it was. *)
Theorem TeeWriter_nil_detaches (x : Writer) (sk : Sinks)
    (ws : list (Time * bytes)) :
  exists rs x',
    run (TeeWriter None :: map writeCall ws) x sk = Some (RetNone :: rs, x', sk)
    /\ List.length rs = List.length ws.
Proof.
  destruct (run_writes_no_tee ws (with_core (custom_TeeWriter None (core x)) x) sk)
    as (rs & x' & Hrun & Hlen & _).
  { by rewrite core_with_core. }
  exists rs, x'. split; [| done].
  cbn [run invoke]. by rewrite Hrun.
Qed.

(** As long as the handle has received no header write, [Code()] is 0 and
    the wrapper has added nothing to the header set; that covers a writer
    that only [Flush] has marked. *)
Theorem Code_is_0_before_the_header_write (now0 : Time) (h : Handle)
    (protoMajor : Z) (name : string) (sk : Sinks) (cs : list Call)
    (rs : list Ret) (x' : Writer) (sk' : Sinks) :
  run cs (newWriter now0 h protoMajor name) sk = Some (rs, x', sk') ->
  headerWrites (w (core x')) = headerWrites h ->
  custom_Code (core x') = 0 /\ custom_Header (core x') = header h.
Proof.
  intros Hrun Hn.
  assert (Hp0 : wroteHeader (core (newWriter now0 h protoMajor name)) = false)
    by by rewrite newWriter_core.
  destruct (run_pending _ _ _ _ _ _ Hp0 Hrun)
    as [(Hc & _ & Hh & _) | (_ & Hn')];
    rewrite newWriter_core in *; cbn in *; [done | lia].
Qed.

Lemma Code_is_0_before_the_header_write_witness :
  let x' := fst (after [TeeWriter (Some 1%nat); Flush]
                   (newWriter 1000 (recorder true false false false) 1 "")
                   noSinks) in
  headerWrites (w (core x')) = headerWrites (recorder true false false false)
  /\ custom_Code (core x') = 0.
Proof.
  cbv zeta. split; [reflexivity |].
  exact (proj1 (Code_is_0_before_the_header_write 1000
           (recorder true false false false) 1 "" noSinks
           [TeeWriter (Some 1%nat); Flush] _ _ _ eq_refl eq_refl)).
Defined.

(** A [Flush] on a writer whose header is pending closes the header for
    good without writing it: whatever is called afterwards, [WriteHeader],
    [Write] and [ReadFrom] included, the handle never receives a header
    write, [Code()] and [Duration()] stay 0 and the header set gets no
    latency header. *)
Theorem Flush_first_closes_the_header (now0 : Time) (h : Handle)
    (protoMajor : Z) (name : string) (sk : Sinks) (pre : list Call)
    (rs0 : list Ret) (xp : Writer) (skp : Sinks) (r : Ret) (x1 : Writer)
    (sk1 : Sinks) (post : list Call) (rs2 : list Ret) (x2 : Writer)
    (sk2 : Sinks) :
  run pre (newWriter now0 h protoMajor name) sk = Some (rs0, xp, skp) ->
  wroteHeader (core xp) = false ->
  invoke Flush xp skp = Some (Ok (r, x1, sk1)) ->
  run post x1 sk1 = Some (rs2, x2, sk2) ->
  headerWrites (w (core x2)) = headerWrites h
  /\ custom_Code (core x2) = 0
  /\ custom_Duration (core x2) = 0
  /\ custom_Header (core x2) = header h.
Proof.
  intros Hpre Hp Hi Hpost.
  assert (Hp0 : wroteHeader (core (newWriter now0 h protoMajor name)) = false)
    by by rewrite newWriter_core.
  destruct (run_pending _ _ _ _ _ _ Hp0 Hpre) as [Hf0 | (Hs & _)];
    [| congruence].
  destruct (Flush_only_sets_the_flag _ _ _ _ _ Hi) as (Hs1 & Hf1 & _).
  destruct (run_sent _ _ _ _ _ _ Hs1 Hpost) as (_ & Hf2).
  pose proof (frame_trans _ _ _ (frame_trans _ _ _ Hf0 Hf1) Hf2)
    as (Hc & Hd & Hh & _ & _ & Hn).
  rewrite newWriter_core in *. cbn in *. done.
Qed.

Lemma Flush_first_closes_the_header_witness :
  let x0 := newWriter 1000 (recorder true false false false) 1 "" in
  let x2 := fst (after [Flush; WriteHeader 2000 404; Write 3000 (B "x")]
                   x0 noSinks) in
  wroteHeader (core x0) = false
  /\ headerWrites (w (core x2)) = 0%nat
  /\ custom_Code (core x2) = 0.
Proof.
  cbv zeta. split; [reflexivity |].
  pose proof (Flush_first_closes_the_header 1000
    (recorder true false false false) 1 "" noSinks [] [] _ noSinks RetNone
    _ noSinks [WriteHeader 2000 404; Write 3000 (B "x")] _ _ _
    eq_refl eq_refl eq_refl eq_refl) as (Hn & Hc & _).
  split; [exact Hn | exact Hc].
Defined.

End method_facts.

(** ** responses.Write on other headers and through the instrumented writer *)

Section responses_more_facts.
Import http time webio responses.

Local Arguments custom_Write : simpl never.

Lemma Values_Set (h : Header) (key value : string) :
  Values (Set_ key value h) key = [value].
Proof. unfold Values, Set_. by rewrite lookup_insert_eq. Qed.

Lemma Values_Set_other (h : Header) (key value key' : string) :
  CanonicalHeaderKey key <> CanonicalHeaderKey key' ->
  Values (Set_ key value h) key' = Values h key'.
Proof. intros Hne. unfold Values, Set_. by rewrite lookup_insert_ne. Qed.

(** On a recording handle the generic function is the one on handles. *)
Lemma Write_to_Handle (h : Handle) (code : Z) (data : bytes) :
  Write_to h code data = responses.Write h code data.
Proof.
  unfold Write_to, responses.Write. cbn.
  unfold Handle_Write. by destruct (onWrite _ _ data) as [n [e|]].
Qed.

(** [responses.Write] replaces whatever values Content-Type and
    X-Content-Type-Options had, however many, by the one it sets, and
    leaves the values of every other header as they were. *)
Theorem Write_replaces_two_headers_only (h : Handle) (code : Z) (data : bytes) :
  let h' := fst (responses.Write h code data) in
  Values (header h') "Content-Type" = ["application/json; charset=utf-8"]
  /\ Values (header h') "X-Content-Type-Options" = ["nosniff"]
  /\ (forall k,
        CanonicalHeaderKey k <> "Content-Type" ->
        CanonicalHeaderKey k <> "X-Content-Type-Options" ->
        Values (header h') k = Values (header h) k).
Proof.
  cbv zeta. unfold responses.Write, Handle_Write, Handle_WriteHeader.
  destruct (onWrite _ _ data) as [n [e|]]; cbn.
  all: split; [rewrite Values_Set_other by (by vm_compute); apply Values_Set |].
  all: split; [apply Values_Set |].
  all: intros k H1 H2; rewrite !Values_Set_other; [done | | ];
         intros Heq; [apply H1 | apply H2]; by rewrite <- Heq.
Qed.

Lemma Write_replaces_two_headers_only_witness :
  let h := with_header (Add "Content-Type" "text/html"
                          (Add "Vary" "Accept" ∅))
             (recorder false false false false) in
  let h' := fst (responses.Write h 200 (B "{}")) in
  CanonicalHeaderKey "Vary" <> "Content-Type"
  /\ Values (header h') "Content-Type" = ["application/json; charset=utf-8"]
  /\ Values (header h') "Vary" = ["Accept"].
Proof.
  cbv zeta. split; [by vm_compute |].
  pose proof (Write_replaces_two_headers_only
    (with_header (Add "Content-Type" "text/html" (Add "Vary" "Accept" ∅))
       (recorder false false false false)) 200 (B "{}")) as (Hct & _ & Hother).
  split; [exact Hct |].
  exact (Hother "Vary" ltac:(by vm_compute) ltac:(by vm_compute)).
Defined.

(** The writer a [Write] through the interface leaves, returned or
    panicked. *)
Lemma Write_on_writer (buf : bytes) (i : Instrumented) :
  writer (snd (Write_on buf i))
  = with_w (received (EvWrite buf) (w (primed (clock i) (writer i))))
      (primed (clock i) (writer i)).
Proof.
  cbn. destruct (custom_Write _ buf _ _) as [[[[n err] t'] sk']|] eqn:HW; cbn.
  - by apply Write_inv in HW.
  - done.
Qed.

(** [responses.Write] through an instrumented writer whose header is
    pending: the handle receives [WriteHeader(status)] with the two JSON
    headers and the latency header in the header set, and then the body;
    [Code()] is [status] and [Duration()] the time since construction; without
    a tee sink the call panics exactly when the handle's write fails. *)
Theorem Write_to_pending_writer (i : Instrumented) (status : Z) (data : bytes) :
  wroteHeader (writer i) = false ->
  let t := writer i in
  let i' := fst (Write_to i status data) in
  let res := snd (Write_to i status data) in
  let sent :=
    Add (headerName t) (Itoa (Milliseconds (Since (start t) (clock i))) +:+ "ms")
      (Set_ "X-Content-Type-Options" "nosniff"
         (Set_ "Content-Type" "application/json; charset=utf-8" (custom_Header t))) in
  calls (w (writer i'))
  = calls (w t) ++ [EvWriteHeader status sent; EvWrite data]
  /\ custom_Header (writer i') = sent
  /\ custom_Code (writer i') = status
  /\ custom_Duration (writer i') = Since (start t) (clock i)
  /\ (teeWriter t = None ->
        res = match snd (onWrite (w t) (calls (w t) ++ [EvWriteHeader status sent]) data) with
              | Some e => Panic e
              | None => Ok tt
              end).
Proof.
  intros Hp. cbv zeta.
  set (t2 := with_w (with_header
                (Set_ "X-Content-Type-Options" "nosniff"
                   (Set_ "Content-Type" "application/json; charset=utf-8"
                      (custom_Header (writer i)))) (w (writer i))) (writer i)).
  assert (Hp2 : wroteHeader t2 = false) by done.
  destruct (WriteHeader_pending (clock i) status t2 Hp2)
    as (Hs & Hc & Hd & Hh & Hcalls & _ & _ & _ & Htee). cbv zeta in *.
  set (t3 := custom_WriteHeader (clock i) status t2) in *.
  assert (Hfst : writer (fst (Write_to i status data))
                 = with_w (received (EvWrite data) (w t3)) t3).
  { pose proof (Write_on_writer data
        {| clock := clock i; writer := t3; sinks := sinks i |}) as HW.
    cbn [clock writer] in HW. rewrite (primed_sent _ _ Hs) in HW.
    unfold Write_to. cbn [Header_of Header_put WriteHeader_on custom_ResponseWriter].
    destruct (Write_on data _) as [[[n [e|]] | msg] i4]; exact HW. }
  rewrite Hfst. cbn [w with_w calls received code duration].
  unfold custom_Header, custom_Code, custom_Duration in *.
  cbn [w with_w header received code duration].
  split; [| split; [exact Hh | split; [exact Hc | split; [exact Hd |]]]].
  - rewrite Hcalls, Hh. cbn. by rewrite <- app_assoc.
  - intros Hnone.
    unfold Write_to. cbn [Header_of Header_put WriteHeader_on Write_on custom_ResponseWriter].
    cbn [clock writer sinks].
    match goal with
    | |- context [custom_Write _ _ ?c _] => change c with t3
    end.
    rewrite (Write_no_tee (clock i) data t3 (sinks i)) by (rewrite Htee; exact Hnone).
    assert (Hon : onWrite (w t3) = onWrite (w (writer i)))
      by (unfold t3, custom_WriteHeader; by destruct (wroteHeader t2)).
    rewrite (primed_sent _ _ Hs), Hcalls, Hh, Hon. cbn.
    by destruct (onWrite _ _ data) as [n [e|]].
Qed.

Lemma Write_to_pending_writer_witness :
  let i := {| clock := 4001000;
              writer := core (newWriter 1000 (recorder false false false false) 1 "");
              sinks := noSinks |} in
  let i' := fst (Write_to i 201 (B "{}")) in
  wroteHeader (writer i) = false
  /\ custom_Code (writer i') = 201
  /\ Values (custom_Header (writer i')) "X-Response-Time" = ["4ms"]
  /\ snd (Write_to i 201 (B "{}")) = Ok tt.
Proof.
  cbv zeta. split; [reflexivity |].
  pose proof (Write_to_pending_writer
    {| clock := 4001000;
       writer := core (newWriter 1000 (recorder false false false false) 1 "");
       sinks := noSinks |} 201 (B "{}") eq_refl)
    as (_ & Hh & Hc & _ & Hres).
  split; [exact Hc |]. split.
  - rewrite Hh. reflexivity.
  - exact (Hres eq_refl).
Defined.

(** [responses.Write] through an instrumented writer whose header is
    already written cannot change the response: the handle receives the body
    and no header write, and [Code()] and [Duration()] stay as they were,
    although the two JSON headers are still stored in the header set. *)
Theorem Write_to_sent_writer (i : Instrumented) (status : Z) (data : bytes) :
  wroteHeader (writer i) = true ->
  let t := writer i in
  let i' := fst (Write_to i status data) in
  calls (w (writer i')) = calls (w t) ++ [EvWrite data]
  /\ custom_Code (writer i') = custom_Code t
  /\ custom_Duration (writer i') = custom_Duration t
  /\ custom_Header (writer i')
     = Set_ "X-Content-Type-Options" "nosniff"
         (Set_ "Content-Type" "application/json; charset=utf-8" (custom_Header t)).
Proof.
  intros Hs. cbv zeta.
  set (t2 := with_w (with_header
                (Set_ "X-Content-Type-Options" "nosniff"
                   (Set_ "Content-Type" "application/json; charset=utf-8"
                      (custom_Header (writer i)))) (w (writer i))) (writer i)).
  assert (Hs2 : wroteHeader t2 = true) by done.
  set (t3 := custom_WriteHeader (clock i) status t2).
  assert (Hs3 : wroteHeader t3 = true)
    by (unfold t3; by rewrite WriteHeader_sent).
  assert (Hfst : writer (fst (Write_to i status data))
                 = with_w (received (EvWrite data) (w t3)) t3).
  { pose proof (Write_on_writer data
        {| clock := clock i; writer := t3; sinks := sinks i |}) as HW.
    cbn [clock writer] in HW. rewrite (primed_sent _ _ Hs3) in HW.
    unfold Write_to. cbn [Header_of Header_put WriteHeader_on custom_ResponseWriter].
    destruct (Write_on data _) as [[[n [e|]] | msg] i4]; exact HW. }
  rewrite Hfst. unfold t3. rewrite (WriteHeader_sent _ _ _ Hs2). by cbn.
Qed.

Lemma Write_to_sent_writer_witness :
  let t := custom_WriteHeader 2000 204
             (core (newWriter 1000 (recorder false false false false) 1 "")) in
  let i := {| clock := 4001000; writer := t; sinks := noSinks |} in
  let i' := fst (Write_to i 500 (B "{}")) in
  wroteHeader (writer i) = true
  /\ custom_Code (writer i') = 204
  /\ headerWrites (w (writer i')) = 1%nat.
Proof.
  cbv zeta. split; [reflexivity |].
  pose proof (Write_to_sent_writer
    {| clock := 4001000;
       writer := custom_WriteHeader 2000 204
                   (core (newWriter 1000 (recorder false false false false) 1 ""));
       sinks := noSinks |} 500 (B "{}") eq_refl) as (_ & Hc & _).
  split; [exact Hc | reflexivity].
Defined.

End responses_more_facts.
